(** * Attribute and schema validation of the SCIM server

    A shallow embedding of the validation engine of package [scim]
    ([schema.validate], [attribute.validate], [attribute.validateSingular]
    and [attributes.validate]) together with the properties its
    specification states about it. *)

From Stdlib Require Import String Ascii Bool List ZArith.
From stdpp Require Import base gmap strings list fin_maps.

Set Warnings "-register-all".
Local Open Scope string_scope.
Local Open Scope list_scope.

(** ** Decoded documents

    [json.Decoder] with [UseNumber] decodes a document into [interface{}]:
    [nil], [bool], [json.Number] (the literal as text), [string],
    [[]interface{}] and [map[string]interface{}]. *)

Inductive value :=
| VNull
| VBool (b : bool)
| VNumber (n : string)
| VString (s : string)
| VArray (arr : list value)
| VObject (c : gmap string value).

(** ** CoreAttributes

    [CoreAttributes] is a [map[string]interface{}].  The validation stores
    under a key either the input value as it was given ([CRaw]) or a
    [[]CoreAttributes] ([CList]). *)

Inductive cvalue :=
| CRaw (i : value)
| CList (coreAttributes : list (gmap string cvalue)).

Abbreviation CoreAttributes := (gmap string cvalue).

(** ** Attribute qualities *)

Definition attributeType := string.
Definition attributeTypeBinary : attributeType := "binary".
Definition attributeTypeBoolean : attributeType := "boolean".
Definition attributeTypeComplex : attributeType := "complex".
Definition attributeTypeDateTime : attributeType := "dateTime".
Definition attributeTypeDecimal : attributeType := "decimal".
Definition attributeTypeInteger : attributeType := "integer".
Definition attributeTypeReference : attributeType := "reference".
Definition attributeTypeString : attributeType := "string".

Definition attributeMutability := string.
Definition attributeMutabilityImmutable : attributeMutability := "immutable".
Definition attributeMutabilityReadOnly : attributeMutability := "readOnly".
Definition attributeMutabilityReadWrite : attributeMutability := "readWrite".
Definition attributeMutabilityWriteOnly : attributeMutability := "writeOnly".

Definition attributeReturned := string.
Definition attributeReturnedAlways : attributeReturned := "always".
Definition attributeReturnedDefault : attributeReturned := "default".
Definition attributeReturnedNever : attributeReturned := "never".
Definition attributeReturnedRequest : attributeReturned := "request".

Definition attributeUniqueness := string.
Definition attributeUniquenessGlobal : attributeUniqueness := "global".
Definition attributeUniquenessNone : attributeUniqueness := "none".
Definition attributeUniquenessServer : attributeUniqueness := "server".

Inductive validationMode := read | write | replace.

Inductive attribute := mkAttribute {
  Name : string;
  Type_ : attributeType;
  SubAttributes : list attribute;
  MultiValued : bool;
  Description : string;
  Required : bool;
  CanonicalValues : list string;
  CaseExact : bool;
  Mutability : attributeMutability;
  Returned : attributeReturned;
  Uniqueness : attributeUniqueness;
  ReferenceTypes : list string
}.

Abbreviation attributes := (list attribute).

Record schema := mkSchema {
  ID : string;
  SchemaName : string;
  SchemaDescription : string;
  Attributes : attributes
}.

(** ** Errors

    One constructor for each [fmt.Errorf] of the validation, carrying the
    values the message is formatted from, and one for a failed decoding. *)

Inductive error :=
| ErrRequiredValue (name : string)
| ErrNotSlice (i : value)
| ErrEmptyArray
| ErrImmutable (name : string)
| ErrConvertType (i : value) (t : attributeType)
| ErrNotNumber (i : value)
| ErrNotInteger (n : string)
| ErrInvalidType (t : attributeType)
| ErrNotComplex (i : value)
| ErrDuplicateKey (k : string)
| ErrDecode.

Abbreviation result := (CoreAttributes * option error)%type.

(** [strings.Contains]: [substr] occurs in [s]. *)
Fixpoint Contains (s substr : string) : bool :=
  if String.prefix substr s then true
  else match s with
       | EmptyString => false
       | String _ s' => Contains s' substr
       end.

Section Validation.

(** [strings.EqualFold] and [strings.ToLower] of Go's library, and the
    decoding of a document by [json.Decoder] with [UseNumber]. *)
Variable EqualFold : string -> string -> bool.
Variable ToLower : string -> string.
Variable Decode : string -> option value.

(** The scan of the keys of [c] for the attribute named [name]
    ([for k, v := range c] in [attributes.validate]), started with the
    current [hit] and [found]. *)
Fixpoint scanKeys (name : string) (kvs : list (string * value))
    (hit : value) (found : bool) : error + value :=
  match kvs with
  | [] => inr hit
  | (k, v) :: kvs' =>
      if EqualFold name k then
        if found then inl (ErrDuplicateKey (ToLower k))
        else scanKeys name kvs' v true
      else scanKeys name kvs' hit found
  end.

(** [var hit interface{}; var found bool] and the scan of the keys of the
    object, in the order [map_to_list] lists them. *)
Definition findHit (name : string) (c : gmap string value) : error + value :=
  scanKeys name (map_to_list c) VNull false.

(** [for k, v := range attribute { coreAttributes[k] = v }] *)
Definition mergeInto (coreAttributes attribute : CoreAttributes)
    : CoreAttributes :=
  map_fold (fun k v acc => <[k:=v]> acc) coreAttributes attribute.

(** The loop of [attributes.validate] over the declared attributes, with
    the validation of one attribute as [validate]. *)
Definition attributesLoop
    (validate : attribute -> value -> validationMode -> result)
    (c : gmap string value) (mode : validationMode)
    : attributes -> CoreAttributes -> result :=
  fix loop (as_ : attributes) (coreAttributes : CoreAttributes) : result :=
    match as_ with
    | [] => (coreAttributes, None)
    | a :: rest =>
        match findHit (Name a) c with
        | inl err => (∅, Some err)
        | inr hit =>
            match validate a hit mode with
            | (_, Some err) => (∅, Some err)
            | (attribute, None) =>
                loop rest
                  (match mode with
                   | read => coreAttributes
                   | _ => mergeInto coreAttributes attribute
                   end)
            end
        end
    end.

Definition attributesValidateWith
    (validate : attribute -> value -> validationMode -> result)
    (as_ : attributes) (i : value) (mode : validationMode) : result :=
  match i with
  | VObject c => attributesLoop validate c mode as_ ∅
  | _ => (∅, Some (ErrNotComplex i))
  end.

(** The loop of [attribute.validate] over the elements of the array. *)
Fixpoint validateElements (singular : value -> validationMode -> result)
    (arr : list value) (mode : validationMode)
    (coreAttributes : list CoreAttributes)
    : list CoreAttributes + error :=
  match arr with
  | [] => inl coreAttributes
  | sub :: arr' =>
      match singular sub mode with
      | (_, Some err) => inr err
      | (elem, None) =>
          validateElements singular arr' mode (coreAttributes ++ [elem])
      end
  end.

(** [attribute.validate], with [a.validateSingular] as [singular]. *)
Definition validateWith (singular : value -> validationMode -> result)
    (a : attribute) (i : value) (mode : validationMode) : result :=
  match i with
  | VNull =>
      if Required a then (∅, Some (ErrRequiredValue (ToLower (Name a))))
      else (∅, None)
  | _ =>
      if MultiValued a then
        match i with
        | VArray arr =>
            if (Nat.eqb (length arr) 0) && Required a
            then (∅, Some ErrEmptyArray)
            else
              match validateElements singular arr mode [] with
              | inr err => (∅, Some err)
              | inl coreAttributes =>
                  match mode with
                  | read => (∅, None)
                  | _ => ({[ Name a := CList coreAttributes ]}, None)
                  end
              end
        | _ => (∅, Some (ErrNotSlice i))
        end
      else singular i mode
  end.

(** The switch on [a.Type] in [validateSingular]; [complex] is the
    validation of the sub-attributes.  [None] is falling out of the
    switch. *)
Definition checkType (complex : value -> validationMode -> result)
    (a : attribute) (i : value) (mode : validationMode) : option error :=
  if String.eqb (Type_ a) attributeTypeBoolean then
    match i with
    | VBool _ => None
    | _ => Some (ErrConvertType i (Type_ a))
    end
  else if String.eqb (Type_ a) attributeTypeComplex then
    snd (complex i mode)
  else if String.eqb (Type_ a) attributeTypeString
          || String.eqb (Type_ a) attributeTypeReference then
    match i with
    | VString _ => None
    | _ => Some (ErrConvertType i (Type_ a))
    end
  else if String.eqb (Type_ a) attributeTypeInteger then
    match i with
    | VNumber n =>
        if Contains n "." || Contains n "e" then Some (ErrNotInteger n)
        else None
    | _ => Some (ErrNotNumber i)
    end
  else Some (ErrInvalidType (Type_ a)).

(** The switch on [a.Mutability] that [validateSingular] starts with in
    replace mode; [None] is going on to the type switch. *)
Definition mutabilityGate (a : attribute) (mode : validationMode)
    : option result :=
  match mode with
  | replace =>
      if String.eqb (Mutability a) attributeMutabilityImmutable then
        Some (∅, Some (ErrImmutable (Name a)))
      else if String.eqb (Mutability a) attributeMutabilityReadOnly then
        Some (∅, None)
      else None
  | _ => None
  end.

(** [a.Returned == attributeReturnedAlways || a.Returned == attributeReturnedDefault] *)
Definition returnedAlwaysOrDefault (a : attribute) : bool :=
  String.eqb (Returned a) attributeReturnedAlways
  || String.eqb (Returned a) attributeReturnedDefault.

(** [attribute.validateSingular], with the validation of the
    sub-attributes as [complex]. *)
Definition validateSingularWith (complex : value -> validationMode -> result)
    (a : attribute) (i : value) (mode : validationMode) : result :=
  match mutabilityGate a mode with
  | Some r => r
  | None =>
      match checkType complex a i mode with
      | Some err => (∅, Some err)
      | None =>
          match mode with
          | read => (∅, None)
          | _ =>
              if returnedAlwaysOrDefault a
              then ({[ Name a := CRaw i ]}, None)
              else (∅, None)
          end
      end
  end.

(** The three methods call one another: [validateSingular] validates the
    sub-attributes of a complex attribute with [attributes.validate], which
    validates each of them with [attribute.validate], which calls
    [validateSingular].  The recursion is on the attribute, through the list
    of its sub-attributes. *)
Fixpoint validateSingular (a : attribute) (i : value) (mode : validationMode)
    {struct a} : result :=
  validateSingularWith
    (attributesValidateWith
       (fun a' => validateWith (validateSingular a') a')
       (SubAttributes a))
    a i mode.

Definition attribute_validate (a : attribute) : value -> validationMode -> result :=
  validateWith (validateSingular a) a.

Definition attributes_validate : attributes -> value -> validationMode -> result :=
  attributesValidateWith attribute_validate.

Definition schema_validate (s : schema) (raw : string) (mode : validationMode)
    : result :=
  match Decode raw with
  | None => (∅, Some ErrDecode)
  | Some m => attributes_validate (Attributes s) m mode
  end.

(** No two attributes of the collection have names that [EqualFold]
    matches (the data model's invariant on one collection). *)
Fixpoint namesUnique (as_ : attributes) : Prop :=
  match as_ with
  | [] => True
  | a :: rest =>
      Forall (fun b => EqualFold (Name a) (Name b) = false
                       /\ EqualFold (Name b) (Name a) = false) rest
      /\ namesUnique rest
  end.

End Validation.

(** ** Re-serialization

    The document that decoding the JSON text of a [CoreAttributes] gives:
    a [[]CoreAttributes] becomes an array of objects, a value that was
    passed through is itself. *)

Fixpoint toValue (x : cvalue) : value :=
  match x with
  | CRaw i => i
  | CList coreAttributes =>
      VArray (map (fun m => VObject (toValue <$> m)) coreAttributes)
  end.

Definition reserialize (m : CoreAttributes) : value :=
  VObject (toValue <$> m).

(** ** The error kinds of the specification, for each message *)

Inductive errorKind :=
| RequiredFieldMissing
| TypeMismatch
| ArrayExpected
| EmptyRequiredArray
| DuplicateKey
| ImmutableFieldModified
| UnsupportedAttributeType
| MalformedDocument.

Definition kind (e : error) : errorKind :=
  match e with
  | ErrRequiredValue _ => RequiredFieldMissing
  | ErrNotSlice _ => ArrayExpected
  | ErrEmptyArray => EmptyRequiredArray
  | ErrImmutable _ => ImmutableFieldModified
  | ErrConvertType _ _ | ErrNotNumber _ | ErrNotInteger _ | ErrNotComplex _ =>
      TypeMismatch
  | ErrInvalidType _ => UnsupportedAttributeType
  | ErrDuplicateKey _ => DuplicateKey
  | ErrDecode => MalformedDocument
  end.

(** The shape of value that the type switch of [validateSingular] lets
    through for an attribute of type [t]. *)
Definition singularShape (t : attributeType) (i : value) : Prop :=
  match i with
  | VBool _ => t = attributeTypeBoolean
  | VString _ => t = attributeTypeString \/ t = attributeTypeReference
  | VNumber n =>
      t = attributeTypeInteger
      /\ Contains n "." = false /\ Contains n "e" = false
  | VObject _ => t = attributeTypeComplex
  | VNull | VArray _ => False
  end.

(** ** Go's [strings] functions on ASCII text *)

Definition asciiLower (ch : ascii) : ascii :=
  let n := nat_of_ascii ch in
  if (Nat.leb 65 n) && (Nat.leb n 90) then ascii_of_nat (n + 32) else ch.

Fixpoint asciiToLower (s : string) : string :=
  match s with
  | EmptyString => EmptyString
  | String ch s' => String (asciiLower ch) (asciiToLower s')
  end.

Definition asciiEqualFold (s t : string) : bool :=
  String.eqb (asciiToLower s) (asciiToLower t).

(** ** Sample attributes *)

Definition sampleAttribute (name : string) (t : attributeType)
    (subs : attributes) (multi required : bool) (mut : attributeMutability)
    (ret : attributeReturned) : attribute :=
  {| Name := name; Type_ := t; SubAttributes := subs; MultiValued := multi;
     Description := ""; Required := required; CanonicalValues := [];
     CaseExact := false; Mutability := mut; Returned := ret;
     Uniqueness := attributeUniquenessNone; ReferenceTypes := [] |}.

Definition userName : attribute :=
  sampleAttribute "userName" attributeTypeString [] false true
    attributeMutabilityReadWrite attributeReturnedDefault.

Definition nickName : attribute :=
  sampleAttribute "nickName" attributeTypeString [] false false
    attributeMutabilityReadWrite attributeReturnedDefault.

Definition externalId : attribute :=
  sampleAttribute "externalId" attributeTypeString [] false false
    attributeMutabilityImmutable attributeReturnedDefault.

Definition salary : attribute :=
  sampleAttribute "salary" attributeTypeDecimal [] false false
    attributeMutabilityReadWrite attributeReturnedDefault.

Definition badges : attribute :=
  sampleAttribute "badges" attributeTypeString [] true false
    attributeMutabilityImmutable attributeReturnedDefault.

Definition secrets : attribute :=
  sampleAttribute "secrets" attributeTypeString [] true false
    attributeMutabilityReadWrite attributeReturnedNever.

Definition age : attribute :=
  sampleAttribute "age" attributeTypeInteger [] false false
    attributeMutabilityReadWrite attributeReturnedDefault.

Definition emails : attribute :=
  sampleAttribute "emails" attributeTypeString [] true false
    attributeMutabilityReadWrite attributeReturnedDefault.

Definition groups : attribute :=
  sampleAttribute "groups" attributeTypeString [] true true
    attributeMutabilityReadWrite attributeReturnedDefault.

Definition givenName : attribute :=
  sampleAttribute "givenName" attributeTypeString [] false false
    attributeMutabilityReadWrite attributeReturnedDefault.

Definition pin : attribute :=
  sampleAttribute "pin" attributeTypeString [] false false
    attributeMutabilityReadWrite attributeReturnedNever.

Definition profile : attribute :=
  sampleAttribute "profile" attributeTypeComplex [givenName; pin] false false
    attributeMutabilityReadWrite attributeReturnedDefault.

Definition password : attribute :=
  sampleAttribute "password" attributeTypeString [] false true
    attributeMutabilityWriteOnly attributeReturnedNever.

Definition title : attribute :=
  sampleAttribute "title" attributeTypeString [] false false
    attributeMutabilityReadWrite attributeReturnedDefault.

Definition TITLE : attribute :=
  sampleAttribute "TITLE" attributeTypeString [] false false
    attributeMutabilityReadWrite attributeReturnedDefault.


Definition userSchema : schema :=
  {| ID := "urn:ietf:params:scim:schemas:core:2.0:User"; SchemaName := "User";
     SchemaDescription := ""; Attributes := [userName; nickName; pin] |}.

Definition resourceId : attribute :=
  sampleAttribute "id" attributeTypeString [] false false
    attributeMutabilityReadOnly attributeReturnedAlways.

Definition aliceDocument : gmap string value :=
  {[ "USERNAME" := VString "alice" ]}.

(** A decoder for the document [{}] alone. *)
Definition decodeEmptyObject (raw : string) : option value :=
  if String.eqb raw "{}" then Some (VObject ∅) else None.

(** ** Attributes that replace mode leaves alone

    No attribute of the tree is immutable or read-only: the switch on
    [a.Mutability] of [validateSingular] falls through everywhere. *)

Fixpoint freelyMutable (a : attribute) : bool :=
  negb (String.eqb (Mutability a) attributeMutabilityImmutable)
  && negb (String.eqb (Mutability a) attributeMutabilityReadOnly)
  && forallb freelyMutable (SubAttributes a).

(** ** Construction of a schema

    [type Schema struct { schema schema }] and [NewSchemaFromBytes],
    [NewSchemaFromString].  [metaSchema] is the package variable that [init]
    fills from [rawMetaSchema]; [Unmarshal] is what
    [json.Unmarshal(raw, &schema)] leaves in [schema] (its error is not
    looked at). *)

Record Schema := mkSchemaOf { schemaOf : schema }.

Definition zeroSchema : Schema :=
  {| schemaOf := {| ID := ""; SchemaName := ""; SchemaDescription := "";
                    Attributes := [] |} |}.

Section Construction.

Variable EqualFold : string -> string -> bool.
Variable ToLower : string -> string.
Variable Decode : string -> option value.
Variable Unmarshal : string -> schema.
Variable metaSchema : schema.

Definition NewSchemaFromBytes (raw : string) : Schema * option error :=
  match schema_validate EqualFold ToLower Decode metaSchema raw read with
  | (_, Some err) => (zeroSchema, Some err)
  | (_, None) => ({| schemaOf := Unmarshal raw |}, None)
  end.

Definition NewSchemaFromString (s : string) : Schema * option error :=
  NewSchemaFromBytes s.

End Construction.

(** ** List responses

    [listResponse] and the map that [MarshalJSON] hands to [json.Marshal].
    [Resources] is an [interface{}]: [asSlice] is the type assertion
    [l.Resources.([]interface{})]. *)

Section ListResponse.

Variable interface : Type.
Variable asSlice : interface -> option (list interface).

Record listResponse := mkListResponse {
  TotalResults : Z;
  ItemsPerPage : Z;
  StartIndex : Z;
  Resources : interface
}.

(** The receiver after the two [if] of [MarshalJSON] (it is a copy: the
    method has a value receiver). *)
Definition withDefaults (l : listResponse) : listResponse :=
  let l :=
    if Z.eqb (StartIndex l) 0
    then {| TotalResults := TotalResults l; ItemsPerPage := ItemsPerPage l;
            StartIndex := 1; Resources := Resources l |}
    else l in
  if Z.eqb (ItemsPerPage l) 0 then
    match asSlice (Resources l) with
    | Some resources =>
        {| TotalResults := TotalResults l;
           ItemsPerPage := Z.of_nat (length resources);
           StartIndex := StartIndex l; Resources := Resources l |}
    | None =>
        {| TotalResults := TotalResults l; ItemsPerPage := 1;
           StartIndex := StartIndex l; Resources := Resources l |}
    end
  else l.

(** The values of the map literal, by key. *)
Inductive field :=
| FSchemas (schemas : list string)
| FInt (n : Z)
| FResources (resources : interface).

Definition marshalledMap (l : listResponse) : gmap string field :=
  let l := withDefaults l in
  {[ "schemas" := FSchemas ["urn:ietf:params:scim:api:messages:2.0:ListResponse"];
     "totalResults" := FInt (TotalResults l);
     "itemsPerPage" := FInt (ItemsPerPage l);
     "startIndex" := FInt (StartIndex l);
     "Resources" := FResources (Resources l) ]}.

End ListResponse.

Arguments TotalResults {interface} _.
Arguments ItemsPerPage {interface} _.
Arguments StartIndex {interface} _.
Arguments Resources {interface} _.
Arguments FSchemas {interface} _.
Arguments FInt {interface} _.
Arguments FResources {interface} _.

(** ** Properties *)

Section Properties.

Context (EqualFold : string -> string -> bool) (ToLower : string -> string).
Context (Decode : string -> option value).

Local Abbreviation scanKeys := (scanKeys EqualFold ToLower).
Local Abbreviation findHit := (findHit EqualFold ToLower).
Local Abbreviation attributesLoop := (attributesLoop EqualFold ToLower).
Local Abbreviation validateSingular := (validateSingular EqualFold ToLower).
Local Abbreviation attribute_validate := (attribute_validate EqualFold ToLower).
Local Abbreviation attributes_validate := (attributes_validate EqualFold ToLower).
Local Abbreviation validateWith := (validateWith ToLower).
Local Abbreviation schema_validate := (schema_validate EqualFold ToLower Decode).

Lemma mergeInto_union (coreAttributes m : CoreAttributes) :
  mergeInto coreAttributes m = m ∪ coreAttributes.
Proof.
  unfold mergeInto.
  apply (map_fold_weak_ind (fun r m' => r = m' ∪ coreAttributes)).
  - by rewrite (left_id_L ∅ (∪)).
  - intros k v m' r _ ->. by rewrite insert_union_l.
Qed.

Lemma validateSingular_unfold a i mode :
  validateSingular a i mode
  = validateSingularWith (attributes_validate (SubAttributes a)) a i mode.
Proof. by destruct a. Qed.

Lemma attribute_validate_unfold a i mode :
  attribute_validate a i mode = validateWith (validateSingular a) a i mode.
Proof. reflexivity. Qed.

(** *** The scan of the keys *)

Lemma scanKeys_no_match name kvs hit found :
  Forall (fun kv => EqualFold name kv.1 = false) kvs ->
  scanKeys name kvs hit found = inr hit.
Proof.
  induction 1 as [|[k v] kvs Hk _ IH]; simpl in *; [done|].
  by rewrite Hk.
Qed.

Lemma scanKeys_found name kvs hit k v :
  (k, v) ∈ kvs -> EqualFold name k = true ->
  exists k', k' ∈ kvs.*1 /\ EqualFold name k' = true
    /\ scanKeys name kvs hit true = inl (ErrDuplicateKey (ToLower k')).
Proof.
  induction kvs as [|[k0 v0] kvs IH]; intros Hin Hk.
  - by apply elem_of_nil in Hin.
  - simpl. destruct (EqualFold name k0) eqn:Hk0.
    + exists k0. split; [left|done].
    + apply elem_of_cons in Hin as [Heq|Hin]; [congruence|].
      destruct (IH Hin Hk) as (k' & ? & ? & ?).
      exists k'. split; [by right|done].
Qed.

Lemma scanKeys_duplicate name kvs hit found k1 v1 k2 v2 :
  (k1, v1) ∈ kvs -> (k2, v2) ∈ kvs -> k1 <> k2 ->
  EqualFold name k1 = true -> EqualFold name k2 = true ->
  exists k, k ∈ kvs.*1 /\ EqualFold name k = true
    /\ scanKeys name kvs hit found = inl (ErrDuplicateKey (ToLower k)).
Proof.
  revert hit found.
  induction kvs as [|[k0 v0] kvs IH]; intros hit found Hin1 Hin2 Hne Hk1 Hk2.
  - by apply elem_of_nil in Hin1.
  - simpl. destruct (EqualFold name k0) eqn:Hk0.
    + destruct found.
      { exists k0. split; [left|done]. }
      assert (exists k v, (k, v) ∈ kvs /\ EqualFold name k = true)
        as (k & v & Hin & Hk).
      { apply elem_of_cons in Hin1 as [Heq1|Hin1];
          apply elem_of_cons in Hin2 as [Heq2|Hin2]; simplify_eq; eauto. }
      destruct (scanKeys_found name kvs v0 k v Hin Hk) as (k' & ? & ? & ?).
      exists k'. split; [by right|done].
    + apply elem_of_cons in Hin1 as [Heq1|Hin1]; [congruence|].
      apply elem_of_cons in Hin2 as [Heq2|Hin2]; [congruence|].
      destruct (IH hit found Hin1 Hin2 Hne Hk1 Hk2) as (k' & ? & ? & ?).
      exists k'. split; [by right|done].
Qed.

Lemma scanKeys_unique name kvs hit k v :
  NoDup kvs.*1 -> (k, v) ∈ kvs -> EqualFold name k = true ->
  (forall k', k' ∈ kvs.*1 -> k' <> k -> EqualFold name k' = false) ->
  scanKeys name kvs hit false = inr v.
Proof.
  revert hit.
  induction kvs as [|[k0 v0] kvs IH]; intros hit Hnd Hin Hk Hother.
  - by apply elem_of_nil in Hin.
  - simpl in *. apply NoDup_cons in Hnd as [Hk0 Hnd].
    destruct (decide (k0 = k)) as [->|Hne].
    + rewrite Hk.
      apply elem_of_cons in Hin as [Heq|Hin].
      * simplify_eq. apply scanKeys_no_match, Forall_forall.
        intros [k' v'] Hin'. simpl. apply Hother.
        -- right. apply list_elem_of_fmap. by exists (k', v').
        -- intros ->. apply Hk0, list_elem_of_fmap. by exists (k, v').
      * exfalso. apply Hk0, list_elem_of_fmap. by exists (k, v).
    + rewrite (Hother k0); [|by left|done].
      apply elem_of_cons in Hin as [Heq|Hin]; [congruence|].
      apply IH; [done..|]. intros k' ? ?. apply Hother; [by right|done].
Qed.

(** The order in which the keys are visited (Go leaves the order of
    [range] over a map open) changes at most which of the duplicate keys the
    error names. *)
Lemma scanKeys_filter name kvs hit found :
  scanKeys name kvs hit found
  = scanKeys name (List.filter (fun kv => EqualFold name kv.1) kvs) hit found.
Proof.
  revert hit found. induction kvs as [|[k v] kvs IH]; intros hit found; [done|].
  simpl. destruct (EqualFold name k) eqn:Hk; simpl; rewrite ?Hk; [|done].
  by destruct found.
Qed.

Lemma scanKeys_order name kvs kvs' hit :
  kvs ≡ₚ kvs' ->
  match scanKeys name kvs hit false, scanKeys name kvs' hit false with
  | inr v, inr v' => v = v'
  | inl (ErrDuplicateKey _), inl (ErrDuplicateKey _) => True
  | _, _ => False
  end.
Proof.
  intros Hperm.
  rewrite (scanKeys_filter name kvs), (scanKeys_filter name kvs').
  assert (List.filter (fun kv => EqualFold name kv.1) kvs
          ≡ₚ List.filter (fun kv => EqualFold name kv.1) kvs') as Hfilter.
  { clear hit. induction Hperm as [|[k v] ???|[k1 v1] [k2 v2] ?|]; simpl.
    - done.
    - destruct (EqualFold name k); by rewrite ?IHHperm.
    - destruct (EqualFold name k1), (EqualFold name k2);
        done || apply Permutation_swap.
    - by etrans. }
  assert (forall l : list (string * value),
            Forall (fun kv => EqualFold name kv.1 = true)
              (List.filter (fun kv => EqualFold name kv.1) l))
    as Hall.
  { intros l. apply Forall_forall. intros kv Hin%list_elem_of_In.
    by apply filter_In in Hin as [_ ?]. }
  pose proof (Hall kvs) as Hl. pose proof (Hall kvs') as Hl'.
  revert Hfilter Hl Hl'.
  generalize (List.filter (fun kv : string * value => EqualFold name kv.1) kvs)
    (List.filter (fun kv : string * value => EqualFold name kv.1) kvs').
  intros l l' Hfilter Hl Hl'.
  destruct Hl as [|[k1 v1] ? Hk1 [|[k2 v2] ? Hk2 _]].
  - apply Permutation_nil_l in Hfilter as <-. done.
  - apply Permutation_singleton_l in Hfilter as <-. simpl in *. by rewrite Hk1.
  - apply Permutation_length in Hfilter.
    destruct Hl' as [|[k1' v1'] ? Hk1' [|[k2' v2'] ? Hk2' _]]; try done.
    simpl in *. by rewrite Hk1, Hk2, Hk1', Hk2'.
Qed.

Lemma findHit_absent name (c : gmap string value) :
  (forall k, is_Some (c !! k) -> EqualFold name k = false) ->
  findHit name c = inr VNull.
Proof.
  intros Hc. apply scanKeys_no_match, Forall_forall.
  intros [k v] Hin%elem_of_map_to_list. apply Hc. by exists v.
Qed.

Lemma findHit_unique name (c : gmap string value) k v :
  c !! k = Some v -> EqualFold name k = true ->
  (forall k', is_Some (c !! k') -> k' <> k -> EqualFold name k' = false) ->
  findHit name c = inr v.
Proof.
  intros Hkv Hk Hother.
  apply (scanKeys_unique name _ VNull k v); [|by apply elem_of_map_to_list|done|].
  - apply NoDup_fst_map_to_list.
  - intros k' ([k'' v'] & -> & Hin%elem_of_map_to_list)%list_elem_of_fmap.
    apply Hother. by exists v'.
Qed.

Lemma findHit_duplicate name (c : gmap string value) k1 k2 :
  is_Some (c !! k1) -> is_Some (c !! k2) -> k1 <> k2 ->
  EqualFold name k1 = true -> EqualFold name k2 = true ->
  exists k, is_Some (c !! k) /\ EqualFold name k = true
    /\ findHit name c = inl (ErrDuplicateKey (ToLower k)).
Proof.
  intros [v1 H1%elem_of_map_to_list] [v2 H2%elem_of_map_to_list] Hne Hk1 Hk2.
  destruct (scanKeys_duplicate name _ VNull false k1 v1 k2 v2 H1 H2 Hne Hk1 Hk2)
    as (k & ([k' v] & -> & Hin%elem_of_map_to_list)%list_elem_of_fmap & Hk & Hscan).
  exists k'. split; [by exists v|done].
Qed.

(** *** The loop over the declared attributes *)

Section Loop.

Variable validate : attribute -> value -> validationMode -> result.
Variable c : gmap string value.
Variable mode : validationMode.


Lemma attributesLoop_app pre rest acc :
  attributesLoop validate c mode (pre ++ rest) acc
  = match attributesLoop validate c mode pre acc with
    | (acc', None) => attributesLoop validate c mode rest acc'
    | (_, Some err) => (∅, Some err)
    end.
Proof.
  revert acc. induction pre as [|a pre IH]; intros acc; simpl; [done|].
  destruct (findHit (Name a) c) as [err|hit]; [done|].
  destruct (validate a hit mode) as [m' [err|]]; [done|].
  apply IH.
Qed.

Lemma attributesLoop_reaches pre rest acc :
  (attributesLoop validate c mode pre acc).2 = None ->
  exists acc', attributesLoop validate c mode (pre ++ rest) acc
               = attributesLoop validate c mode rest acc'.
Proof.
  intros Hpre. rewrite attributesLoop_app.
  destruct (attributesLoop validate c mode pre acc) as [acc' [err|]];
    [done|by exists acc'].
Qed.

Lemma attributesLoop_fails pre a rest acc :
  (match findHit (Name a) c with
   | inl _ => True
   | inr hit => (validate a hit mode).2 <> None
   end) ->
  exists e, attributesLoop validate c mode (pre ++ a :: rest) acc = (∅, Some e).
Proof.
  intros Ha. rewrite attributesLoop_app.
  destruct (attributesLoop validate c mode pre acc) as [acc' [err|]];
    [by exists err|].
  simpl. destruct (findHit (Name a) c) as [err|hit]; [by exists err|].
  destruct (validate a hit mode) as [m' [err|]]; [by exists err|done].
Qed.

End Loop.

Lemma attributes_validate_object as_ (c : gmap string value) mode :
  attributes_validate as_ (VObject c) mode
  = attributesLoop attribute_validate c mode as_ ∅.
Proof. reflexivity. Qed.

Lemma schema_validate_unfold s raw mode :
  schema_validate s raw mode
  = match Decode raw with
    | None => (∅, Some ErrDecode)
    | Some m => attributes_validate (Attributes s) m mode
    end.
Proof. reflexivity. Qed.

Lemma attribute_validate_null a mode :
  attribute_validate a VNull mode
  = if Required a then (∅, Some (ErrRequiredValue (ToLower (Name a))))
    else (∅, None).
Proof. reflexivity. Qed.

(** *** One attribute *)



Lemma validateSingular_gate a i mode r :
  mutabilityGate a mode = Some r -> validateSingular a i mode = r.
Proof.
  intros Hgate. rewrite validateSingular_unfold.
  unfold validateSingularWith. by rewrite Hgate.
Qed.

Lemma validateSingular_typed a i mode :
  mutabilityGate a mode = None ->
  validateSingular a i mode
  = match checkType (attributes_validate (SubAttributes a)) a i mode with
    | Some err => (∅, Some err)
    | None =>
        match mode with
        | read => (∅, None)
        | _ => if returnedAlwaysOrDefault a
               then ({[ Name a := CRaw i ]}, None) else (∅, None)
        end
    end.
Proof.
  intros Hgate. rewrite validateSingular_unfold.
  unfold validateSingularWith. by rewrite Hgate.
Qed.

Lemma validateElements_app singular pre rest mode acc :
  validateElements singular (pre ++ rest) mode acc
  = match validateElements singular pre mode acc with
    | inl acc' => validateElements singular rest mode acc'
    | inr err => inr err
    end.
Proof.
  revert acc. induction pre as [|x pre IH]; intros acc; simpl; [done|].
  destruct (singular x mode) as [m [err|]]; [done|]. apply IH.
Qed.

Lemma validateElements_ok singular arr mode acc :
  Forall (fun x => (singular x mode).2 = None) arr ->
  validateElements singular arr mode acc
  = inl (acc ++ map (fun x => (singular x mode).1) arr).
Proof.
  intros Hall. revert acc.
  induction Hall as [|x arr Hx _ IH]; intros acc; simpl.
  - by rewrite app_nil_r.
  - destruct (singular x mode) as [m [err|]]; [done|].
    simpl. by rewrite IH, <- app_assoc.
Qed.

Lemma validateElements_inv singular arr mode acc l :
  validateElements singular arr mode acc = inl l ->
  Forall (fun x => (singular x mode).2 = None) arr
  /\ l = acc ++ map (fun x => (singular x mode).1) arr.
Proof.
  revert acc. induction arr as [|x arr IH]; intros acc; simpl.
  - intros [= <-]. by rewrite app_nil_r.
  - destruct (singular x mode) as [m [err|]] eqn:Hx; [done|].
    intros [Hall ->]%IH. split.
    + constructor; [by rewrite Hx|done].
    + simpl. by rewrite <- app_assoc.
Qed.

Lemma validateElements_first_error singular pre sub post mode acc e :
  Forall (fun x => (singular x mode).2 = None) pre ->
  (singular sub mode).2 = Some e ->
  validateElements singular (pre ++ sub :: post) mode acc = inr e.
Proof.
  intros Hpre Hsub.
  rewrite validateElements_app, (validateElements_ok _ _ _ _ Hpre). simpl.
  destruct (singular sub mode) as [m [err|]]; simpl in *; congruence.
Qed.



Lemma attribute_validate_singular a i mode :
  MultiValued a = false -> i <> VNull ->
  attribute_validate a i mode = validateSingular a i mode.
Proof.
  intros Hmulti Hi. rewrite attribute_validate_unfold. unfold validateWith.
  rewrite Hmulti. by destruct i.
Qed.

Lemma attribute_validate_array a arr mode :
  MultiValued a = true ->
  attribute_validate a (VArray arr) mode
  = if Nat.eqb (length arr) 0 && Required a then (∅, Some ErrEmptyArray)
    else match validateElements (validateSingular a) arr mode [] with
         | inr err => (∅, Some err)
         | inl coreAttributes =>
             match mode with
             | read => (∅, None)
             | _ => ({[ Name a := CList coreAttributes ]}, None)
             end
         end.
Proof.
  intros Hmulti. rewrite attribute_validate_unfold. unfold validateWith.
  by rewrite Hmulti.
Qed.

Lemma attribute_validate_element_error a pre sub post mode e :
  MultiValued a = true ->
  Forall (fun x => (validateSingular a x mode).2 = None) pre ->
  (validateSingular a sub mode).2 = Some e ->
  attribute_validate a (VArray (pre ++ sub :: post)) mode = (∅, Some e).
Proof.
  intros Hmulti Hpre Hsub. rewrite attribute_validate_array by done.
  rewrite (validateElements_first_error _ _ _ _ _ _ e Hpre Hsub).
  by destruct pre.
Qed.




(** *** Absent attributes *)

(** C7. When no key of the input object matches the name of an attribute
    under [EqualFold], the scan finds nothing and the attribute is
    validated on [nil], in every mode.  If the attribute is [Required] its
    validation is the error "cannot find required value"
    ([RequiredFieldMissing]), and that is the result of validating the
    object against any collection that reaches the attribute, that is whose
    attributes declared before it validate.  If the attribute is not
    [Required] its validation succeeds with no key, and the collection
    validates to what it would without the attribute. *)
Theorem absent_attribute pre a post (c : gmap string value) mode :
  (forall k, is_Some (c !! k) -> EqualFold (Name a) k = false) ->
  findHit (Name a) c = inr VNull
  /\ (Required a = true ->
      attribute_validate a VNull mode
        = (∅, Some (ErrRequiredValue (ToLower (Name a))))
      /\ kind (ErrRequiredValue (ToLower (Name a))) = RequiredFieldMissing
      /\ ((attributes_validate pre (VObject c) mode).2 = None ->
          attributes_validate (pre ++ a :: post) (VObject c) mode
            = (∅, Some (ErrRequiredValue (ToLower (Name a))))))
  /\ (Required a = false ->
      attribute_validate a VNull mode = (∅, None)
      /\ attributes_validate (pre ++ a :: post) (VObject c) mode
         = attributes_validate (pre ++ post) (VObject c) mode).
Proof.
  intros Hc. pose proof (findHit_absent _ _ Hc) as Hhit.
  split; [done|]. rewrite !attributes_validate_object.
  split; intros Hreq.
  - rewrite attribute_validate_null, Hreq. split; [done|]. split; [done|].
    intros Hpre.
    destruct (attributesLoop_reaches attribute_validate c mode pre (a :: post) ∅ Hpre)
      as [acc' ->].
    simpl. by rewrite Hhit, attribute_validate_null, Hreq.
  - rewrite attribute_validate_null, Hreq. split; [done|].
    rewrite !attributesLoop_app.
    destruct (attributesLoop _ _ _ pre _) as [acc' [err|]]; [done|].
    simpl. rewrite Hhit, attribute_validate_null, Hreq.
    rewrite mergeInto_union, (left_id_L ∅ (∪)). by destruct mode.
Qed.

(** *** Duplicate keys *)

(** C8. When two distinct keys of the input object both match the name of
    a declared attribute under [EqualFold], whatever the values under them,
    the scan for that attribute is the error "duplicate key" ([DuplicateKey])
    on one of the matching keys; validating the object against a collection
    with that attribute fails with the empty mapping, and with that error
    when the attributes declared before it validate. *)
Theorem duplicate_key pre a post (c : gmap string value) mode k1 k2 :
  is_Some (c !! k1) -> is_Some (c !! k2) -> k1 <> k2 ->
  EqualFold (Name a) k1 = true -> EqualFold (Name a) k2 = true ->
  exists k,
    is_Some (c !! k) /\ EqualFold (Name a) k = true
    /\ kind (ErrDuplicateKey (ToLower k)) = DuplicateKey
    /\ findHit (Name a) c = inl (ErrDuplicateKey (ToLower k))
    /\ (exists e, attributes_validate (pre ++ a :: post) (VObject c) mode
                  = (∅, Some e))
    /\ ((attributes_validate pre (VObject c) mode).2 = None ->
        attributes_validate (pre ++ a :: post) (VObject c) mode
          = (∅, Some (ErrDuplicateKey (ToLower k)))).
Proof.
  intros H1 H2 Hne Hk1 Hk2.
  destruct (findHit_duplicate _ _ _ _ H1 H2 Hne Hk1 Hk2) as (k & Hk & Hm & Hhit).
  exists k. do 4 (split; [done|]). rewrite !attributes_validate_object. split.
  - apply attributesLoop_fails. by rewrite Hhit.
  - intros Hpre.
    destruct (attributesLoop_reaches attribute_validate c mode pre (a :: post) ∅ Hpre)
      as [acc' ->].
    simpl. by rewrite Hhit.
Qed.

(** *** Returned and empty arrays *)

Lemma returned_never_singular a i mode :
  Returned a = attributeReturnedNever \/ Returned a = attributeReturnedRequest ->
  (validateSingular a i mode).1 = ∅
  /\ (MultiValued a = false -> (attribute_validate a i mode).1 = ∅).
Proof.
  intros Hret.
  assert ((validateSingular a i mode).1 = ∅) as Hsingular.
  { rewrite validateSingular_unfold.
    unfold validateSingularWith, mutabilityGate, returnedAlwaysOrDefault.
    destruct Hret as [-> | ->]; repeat case_match; by simplify_eq. }
  split; [done|]. intros Hmulti.
  destruct i; try (by rewrite attribute_validate_singular).
  rewrite attribute_validate_null. by case_match.
Qed.

Lemma read_mode_empty as_ i :
  (attributes_validate as_ i read).1 = ∅.
Proof.
  destruct i; try done. rewrite attributes_validate_object.
  assert (forall acc : CoreAttributes, acc = ∅ ->
    (attributesLoop attribute_validate c read as_ acc).1 = ∅) as H; [|by apply H].
  induction as_ as [|a rest IH]; intros acc ->; simpl; [done|].
  destruct (findHit (Name a) c) as [err|hit]; [done|].
  destruct (attribute_validate a hit read) as [m [err|]]; [done|]. by apply IH.
Qed.

Lemma required_empty_array a mode :
  MultiValued a = true -> Required a = true ->
  attribute_validate a (VArray []) mode = (∅, Some ErrEmptyArray).
Proof.
  intros Hmulti Hreq. rewrite attribute_validate_array by done.
  simpl. by rewrite Hreq.
Qed.

Lemma optional_empty_array a mode :
  MultiValued a = true -> Required a = false ->
  attribute_validate a (VArray []) mode
  = match mode with
    | read => (∅, None)
    | _ => ({[ Name a := CList [] ]}, None)
    end.
Proof.
  intros Hmulti Hreq. rewrite attribute_validate_array by done.
  simpl. by rewrite Hreq.
Qed.

Lemma multivalued_key a arr mode (m : CoreAttributes) :
  MultiValued a = true -> mode <> read ->
  attribute_validate a (VArray arr) mode = (m, None) ->
  exists l, m = {[ Name a := CList l ]} /\ length l = length arr.
Proof.
  intros Hmulti Hmode. rewrite attribute_validate_array by done.
  destruct (Nat.eqb (length arr) 0 && Required a); [done|].
  destruct (validateElements _ arr mode []) as [l|err] eqn:Hl; [|done].
  apply validateElements_inv in Hl as [_ ->].
  destruct mode; [done|..]; intros [= <-]; eexists; split; try done;
    by rewrite length_map.
Qed.

(** *** Integers *)

Lemma checkType_integer complex a n mode :
  Type_ a = attributeTypeInteger ->
  checkType complex a (VNumber n) mode
  = if Contains n "." || Contains n "e" then Some (ErrNotInteger n) else None.
Proof. intros Htype. unfold checkType. by rewrite Htype. Qed.

(** *** The values stored *)

Lemma singularShape_type t i :
  singularShape t i ->
  t = attributeTypeBoolean \/ t = attributeTypeString
  \/ t = attributeTypeReference \/ t = attributeTypeInteger
  \/ t = attributeTypeComplex.
Proof.
  destruct i; simpl; try done.
  - by left.
  - intros [-> _]. by do 3 right; left.
  - intros [->| ->]; [by right; left|by do 2 right; left].
  - by do 4 right.
Qed.

Lemma checkType_shape a i mode :
  checkType (attributes_validate (SubAttributes a)) a i mode = None ->
  singularShape (Type_ a) i.
Proof.
  unfold checkType.
  destruct (String.eqb_spec (Type_ a) attributeTypeBoolean) as [->|_].
  { by destruct i. }
  destruct (String.eqb_spec (Type_ a) attributeTypeComplex) as [->|_].
  { by destruct i. }
  destruct (String.eqb_spec (Type_ a) attributeTypeString) as [->|_].
  { destruct i; simpl; try done. by left. }
  destruct (String.eqb_spec (Type_ a) attributeTypeReference) as [->|_].
  { destruct i; simpl; try done. by right. }
  destruct (String.eqb_spec (Type_ a) attributeTypeInteger) as [->|_]; [|done].
  destruct i; simpl; try done.
  destruct (Contains n ".") eqn:?, (Contains n "e") eqn:?; by simpl.
Qed.

Lemma validateSingular_ok a i mode m :
  validateSingular a i mode = (m, None) ->
  m = ∅
  \/ (m = {[ Name a := CRaw i ]} /\ singularShape (Type_ a) i
      /\ mode <> read /\ returnedAlwaysOrDefault a = true).
Proof.
  destruct (mutabilityGate a mode) as [r|] eqn:Hgate.
  - rewrite (validateSingular_gate _ _ _ _ Hgate).
    unfold mutabilityGate in Hgate. intros ->. left.
    repeat case_match; by simplify_eq.
  - rewrite validateSingular_typed by done.
    destruct (checkType _ a i mode) eqn:Hcheck; [done|].
    apply checkType_shape in Hcheck.
    destruct mode, (returnedAlwaysOrDefault a); intros [= <-]; auto.
Qed.

Lemma attribute_validate_ok a hit mode m k x :
  attribute_validate a hit mode = (m, None) -> m !! k = Some x ->
  Name a = k /\ mode <> read
  /\ ((MultiValued a = false /\ x = CRaw hit /\ singularShape (Type_ a) hit)
      \/ (MultiValued a = true /\ exists arr,
            hit = VArray arr
            /\ x = CList (map (fun e => (validateSingular a e mode).1) arr)
            /\ Forall (fun e =>
                  (validateSingular a e mode).1 = ∅
                  \/ ((validateSingular a e mode).1 = {[ Name a := CRaw e ]}
                      /\ singularShape (Type_ a) e)) arr)).
Proof.
  assert (forall i, validateSingular a i mode = (m, None) ->
            m !! k = Some x ->
            Name a = k /\ mode <> read /\ x = CRaw i
            /\ singularShape (Type_ a) i) as Hsingular.
  { intros i [->|(-> & ? & ? & ?)]%validateSingular_ok; [done|].
    by intros [<- <-]%lookup_singleton_Some. }
  destruct (MultiValued a) eqn:Hmulti.
  - destruct hit as [| | | |arr|];
      try (rewrite attribute_validate_unfold; unfold validateWith;
           rewrite ?Hmulti; repeat case_match; intros [= <-];
           by rewrite lookup_empty).
    rewrite attribute_validate_array by done.
    destruct (Nat.eqb (length arr) 0 && Required a); [done|].
    destruct (validateElements _ arr mode []) as [l|err] eqn:Hl; [|done].
    apply validateElements_inv in Hl as [Hall ->].
    intros Hres Hk.
    assert (mode <> read /\ m = {[ Name a := CList
              ([] ++ map (fun e => (validateSingular a e mode).1) arr) ]})
      as [Hmode ->].
    { destruct mode; simplify_eq; by rewrite ?lookup_empty in Hk. }
    apply lookup_singleton_Some in Hk as [<- <-].
    split; [done|]. split; [done|]. right. split; [done|].
    exists arr. split; [done|]. split; [done|].
    eapply Forall_impl; [exact Hall|].
    intros e He. simpl in He.
    destruct (validateSingular a e mode) as [me oe] eqn:Hres'.
    simpl in *. subst oe.
    apply validateSingular_ok in Hres' as [->|(-> & ? & _)]; auto.
  - destruct hit;
      try (rewrite attribute_validate_singular by done;
           intros Hres Hk; destruct (Hsingular _ Hres Hk) as (? & ? & ? & ?);
           split; [done|]; split; [done|]; by left).
    rewrite attribute_validate_null.
    case_match; intros [= <-]. by rewrite lookup_empty.
Qed.

Lemma attributesLoop_lookup validate (c : gmap string value) mode as_
    (acc M : CoreAttributes) k x :
  attributesLoop validate c mode as_ acc = (M, None) -> M !! k = Some x ->
  acc !! k = Some x
  \/ exists a hit m, a ∈ as_ /\ findHit (Name a) c = inr hit
       /\ validate a hit mode = (m, None) /\ m !! k = Some x.
Proof.
  revert acc. induction as_ as [|a rest IH]; intros acc; simpl.
  - intros [= <-]. auto.
  - destruct (findHit (Name a) c) as [err|hit] eqn:Hhit; [done|].
    destruct (validate a hit mode) as [m [err|]] eqn:Hres; [done|].
    intros Hloop HM. destruct (IH _ Hloop HM) as [Hacc|(b & h & mb & ? & ?)].
    + assert (acc !! k = Some x \/ m !! k = Some x) as [?|?].
      { destruct mode; auto; rewrite mergeInto_union in Hacc;
          apply lookup_union_Some_raw in Hacc as [?|[_ ?]]; auto. }
      * by left.
      * right. exists a, hit, m. split; [left|done].
    + right. exists b, h, mb. split; [by right|done].
Qed.


(** *** Validating the mapping again *)

Lemma namesUnique_eq as_ a b :
  namesUnique EqualFold as_ -> a ∈ as_ -> b ∈ as_ ->
  EqualFold (Name a) (Name b) = true -> a = b.
Proof.
  induction as_ as [|x rest IH]; simpl.
  - by intros _ ?%elem_of_nil.
  - intros [Hx Hrest] Ha Hb Hab. rewrite Forall_forall in Hx.
    apply elem_of_cons in Ha as [->|Ha]; apply elem_of_cons in Hb as [->|Hb].
    + done.
    + destruct (Hx b Hb). congruence.
    + destruct (Hx a Ha). congruence.
    + by apply IH.
Qed.

Lemma attributesLoop_ext validate (c c' : gmap string value) mode as_ acc :
  (forall a, a ∈ as_ -> exists hit hit',
      findHit (Name a) c = inr hit /\ findHit (Name a) c' = inr hit'
      /\ validate a hit mode = validate a hit' mode) ->
  attributesLoop validate c mode as_ acc
  = attributesLoop validate c' mode as_ acc.
Proof.
  revert acc. induction as_ as [|a rest IH]; intros acc Hall; simpl; [done|].
  destruct (Hall a ltac:(left)) as (hit & hit' & -> & -> & ->).
  destruct (validate a hit' mode) as [m [err|]]; [done|].
  apply IH. intros b Hb. apply Hall. by right.
Qed.

Lemma attributesLoop_dom validate (c : gmap string value) mode as_
    (acc M : CoreAttributes) :
  mode <> read ->
  attributesLoop validate c mode as_ acc = (M, None) ->
  (forall k, is_Some (acc !! k) -> is_Some (M !! k))
  /\ (forall a, a ∈ as_ -> exists hit m,
        findHit (Name a) c = inr hit /\ validate a hit mode = (m, None)
        /\ forall k, is_Some (m !! k) -> is_Some (M !! k)).
Proof.
  intros Hmode. revert acc. induction as_ as [|a rest IH]; intros acc; simpl.
  - intros [= <-]. split; [done|]. by intros a ?%elem_of_nil.
  - destruct (findHit (Name a) c) as [err|hit] eqn:Hhit; [done|].
    destruct (validate a hit mode) as [m [err|]] eqn:Hres; [done|].
    intros [Hacc Hrest]%IH.
    assert (forall k, is_Some (m !! k) \/ is_Some (acc !! k) ->
                      is_Some (M !! k)) as Hboth.
    { intros k Hk. apply Hacc. destruct mode; [done|..];
        rewrite mergeInto_union; rewrite <- !elem_of_dom in *; set_solver. }
    split; [by auto|].
    intros b [->|Hb]%elem_of_cons; [|by apply Hrest].
    exists hit, m. by auto.
Qed.

Lemma attribute_validate_write a hit m :
  MultiValued a = false -> attribute_validate a hit write = (m, None) ->
  (hit = VNull /\ Required a = false /\ m = ∅)
  \/ (hit <> VNull /\ returnedAlwaysOrDefault a = true
      /\ m = {[ Name a := CRaw hit ]})
  \/ (hit <> VNull /\ returnedAlwaysOrDefault a = false /\ m = ∅).
Proof.
  intros Hmulti.
  assert (hit = VNull \/ hit <> VNull) as [->|Hhit] by (destruct hit; auto).
  - rewrite attribute_validate_null. case_match; [done|]. intros [= <-]. auto.
  - rewrite attribute_validate_singular, validateSingular_typed by done.
    destruct (checkType _ a hit write); [done|].
    destruct (returnedAlwaysOrDefault a); intros [= <-]; auto.
Qed.

Lemma attributes_validate_again as_ (c : gmap string value) (M : CoreAttributes) :
  (forall s, EqualFold s s = true) ->
  namesUnique EqualFold as_ ->
  Forall (fun a => MultiValued a = false) as_ ->
  Forall (fun a => Required a = true -> returnedAlwaysOrDefault a = true) as_ ->
  attributes_validate as_ (VObject c) write = (M, None) ->
  attributes_validate as_ (reserialize M) write = (M, None).
Proof.
  intros Hrefl Huniq Hsingle Hret. unfold reserialize.
  rewrite !attributes_validate_object. intros Hval.
  rewrite Forall_forall in Hsingle. rewrite Forall_forall in Hret.
  assert (write <> read) as Hwrite by done.
  destruct (attributesLoop_dom _ _ _ _ _ _ Hwrite Hval) as [_ Hdom].
  assert (forall k x, M !! k = Some x -> exists a hit,
            a ∈ as_ /\ findHit (Name a) c = inr hit /\ Name a = k
            /\ x = CRaw hit /\ hit <> VNull
            /\ returnedAlwaysOrDefault a = true) as Hkeys.
  { intros k x HM.
    destruct (attributesLoop_lookup _ _ _ _ _ _ _ _ Hval HM)
      as [Hempty|(a & hit & m & Ha & Hhit & Hres & Hm)].
    { by rewrite lookup_empty in Hempty. }
    exists a, hit.
    apply (attribute_validate_write _ _ _ (Hsingle a Ha)) in Hres
      as [(_ & _ & ->)|[(? & ? & ->)|(_ & _ & ->)]].
    - by rewrite lookup_empty in Hm.
    - by apply lookup_singleton_Some in Hm as [<- <-].
    - by rewrite lookup_empty in Hm. }
  rewrite <- Hval. symmetry. apply attributesLoop_ext. intros b Hb.
  destruct (Hdom b Hb) as (hit & m & Hhit & Hres & Hm).
  exists hit. rewrite Hhit.
  assert (forall k, is_Some ((toValue <$> M) !! k) ->
            EqualFold (Name b) k = true ->
            k = Name b /\ M !! k = Some (CRaw hit) /\ hit <> VNull
            /\ returnedAlwaysOrDefault b = true) as Hmatch.
  { intros k [v Hv] Hk. rewrite lookup_fmap in Hv.
    destruct (M !! k) as [x|] eqn:HM; [|done].
    destruct (Hkeys k x HM) as (a & hit_a & Ha & Hhit_a & <- & -> & ? & ?).
    assert (b = a) as <- by (by apply (namesUnique_eq as_)).
    assert (hit_a = hit) as -> by congruence. done. }
  assert (findHit (Name b) (toValue <$> M) = inr VNull
          \/ findHit (Name b) (toValue <$> M) = inr hit
             /\ returnedAlwaysOrDefault b = true /\ hit <> VNull)
    as [Hagain|(Hagain & Hreturned & Hpresent)].
  { destruct (M !! Name b) as [x|] eqn:HM.
    - right.
      destruct (Hmatch (Name b)) as (_ & Hx & ? & ?); [|done|].
      { rewrite lookup_fmap, HM. by eexists. }
      split; [|done].
      apply (findHit_unique _ _ (Name b)); [|done|].
      + by rewrite lookup_fmap, Hx.
      + intros k Hk Hne. destruct (EqualFold (Name b) k) eqn:Hfold; [|done].
        by destruct (Hmatch k Hk Hfold).
    - left. apply findHit_absent. intros k Hk.
      destruct (EqualFold (Name b) k) eqn:Hfold; [|done].
      destruct (Hmatch k Hk Hfold) as (-> & ? & _). congruence. }
  - exists VNull. split; [done|]. split; [done|]. rewrite Hres.
    apply (attribute_validate_write _ _ _ (Hsingle b Hb)) in Hres
      as [(-> & Hreq & ->)|[(? & ? & ->)|(? & Hreturned & ->)]].
    + by rewrite attribute_validate_null, Hreq.
    + destruct (Hm (Name b)) as [x Hx]; [by rewrite lookup_singleton_eq|].
      assert (is_Some ((toValue <$> M) !! Name b)) as Hk
        by (rewrite lookup_fmap, Hx; by eexists).
      destruct (Hmatch (Name b) Hk (Hrefl _)) as (_ & Hx' & _).
      assert (findHit (Name b) (toValue <$> M) = inr hit) as Hunique.
      { apply (findHit_unique _ _ (Name b)); [by rewrite lookup_fmap, Hx'|done|].
        intros k Hk' ?. destruct (EqualFold (Name b) k) eqn:Hfold; [|done].
        by destruct (Hmatch k Hk' Hfold). }
      congruence.
    + rewrite attribute_validate_null.
      destruct (Required b) eqn:Hreq; [|done].
      rewrite (Hret b Hb Hreq) in Hreturned. done.
  - exists hit. by auto.
Qed.

(** C2, as the code has it.  For a schema whose attributes are not
    multi-valued, have names that [EqualFold] tells apart, and are
    [Returned] always or default when they are [Required]: when a document
    validates in write mode to the mapping [M], the document that [M]
    re-serializes to validates in write mode to [M] again.  ([EqualFold]
    matches a name with itself.) *)
Theorem revalidation s :
  (forall x, EqualFold x x = true) ->
  namesUnique EqualFold (Attributes s) ->
  Forall (fun a => MultiValued a = false) (Attributes s) ->
  Forall (fun a => Required a = true -> returnedAlwaysOrDefault a = true)
    (Attributes s) ->
  (forall i (M : CoreAttributes),
     attributes_validate (Attributes s) i write = (M, None) ->
     attributes_validate (Attributes s) (reserialize M) write = (M, None))
  /\ (forall raw raw' (M : CoreAttributes),
       schema_validate s raw write = (M, None) ->
       Decode raw' = Some (reserialize M) ->
       schema_validate s raw' write = (M, None)).
Proof.
  intros Hrefl Huniq Hsingle Hret.
  assert (forall i (M : CoreAttributes),
    attributes_validate (Attributes s) i write = (M, None) ->
    attributes_validate (Attributes s) (reserialize M) write = (M, None))
    as Hagain.
  { intros i M. destruct i; try done. by apply attributes_validate_again. }
  split; [done|]. intros raw raw' M.
  rewrite !schema_validate_unfold. intros Hval ->.
  destruct (Decode raw); [by eapply Hagain|done].
Qed.

(** *** Errors *)



(** *** Types without a validation *)

(** C10. For an attribute of type decimal, dateTime or binary,
    [validateSingular] of any value is the error "not implemented/invalid
    type" ([UnsupportedAttributeType]) in every mode, except in replace mode
    for an immutable attribute (the error "immutable field") and for a
    read-only one (success with no key), where the switch on the mutability
    returns first.  Its mapping is empty in all cases, and it is what
    [attribute.validate] returns for a present value of an attribute that is
    not multi-valued.  No value of such an attribute is stored: when
    [attribute.validate] stores something, the attribute is multi-valued and
    what is stored is a list of empty [CoreAttributes]. *)
Theorem unsupported_type a i mode :
  Type_ a = attributeTypeDecimal \/ Type_ a = attributeTypeDateTime
  \/ Type_ a = attributeTypeBinary ->
  (mode = replace -> Mutability a = attributeMutabilityImmutable ->
   validateSingular a i mode = (∅, Some (ErrImmutable (Name a))))
  /\ (mode = replace -> Mutability a = attributeMutabilityReadOnly ->
      validateSingular a i mode = (∅, None))
  /\ (mode <> replace
      \/ (Mutability a <> attributeMutabilityImmutable
          /\ Mutability a <> attributeMutabilityReadOnly) ->
      validateSingular a i mode = (∅, Some (ErrInvalidType (Type_ a)))
      /\ kind (ErrInvalidType (Type_ a)) = UnsupportedAttributeType)
  /\ (validateSingular a i mode).1 = ∅
  /\ (MultiValued a = false -> i <> VNull ->
      attribute_validate a i mode = validateSingular a i mode)
  /\ (forall (m : CoreAttributes) k x,
      attribute_validate a i mode = (m, None) -> m !! k = Some x ->
      MultiValued a = true
      /\ exists arr, i = VArray arr /\ x = CList (replicate (length arr) ∅)).
Proof.
  intros Htype.
  assert (checkType (attributes_validate (SubAttributes a)) a i mode
          = Some (ErrInvalidType (Type_ a))) as Hcheck.
  { unfold checkType. by destruct Htype as [->|[->| ->]]. }
  assert (mutabilityGate a mode = None ->
          validateSingular a i mode = (∅, Some (ErrInvalidType (Type_ a))))
    as Htyped.
  { intros Hgate. by rewrite validateSingular_typed, Hcheck. }
  assert (forall x, (validateSingular a x mode).1 = ∅) as Hempty.
  { intros x. destruct (mutabilityGate a mode) as [r|] eqn:Hgate.
    - rewrite (validateSingular_gate _ _ _ _ Hgate).
      unfold mutabilityGate in Hgate. repeat case_match; by simplify_eq.
    - rewrite validateSingular_typed by done. unfold checkType.
      by destruct Htype as [->|[->| ->]]. }
  split; [|split; [|split; [|split; [|split]]]].
  - intros -> Hmut. apply validateSingular_gate. simpl. by rewrite Hmut.
  - intros -> Hmut. apply validateSingular_gate. simpl. by rewrite Hmut.
  - intros Hgate. split; [|done]. apply Htyped. unfold mutabilityGate.
    destruct mode; try done.
    destruct Hgate as [?|[Himm Hro]]; [done|].
    apply String.eqb_neq in Himm, Hro. by rewrite Himm, Hro.
  - apply Hempty.
  - apply attribute_validate_singular.
  - intros m k x Hres Hm.
    assert (forall l : list value,
      map (fun e => (validateSingular a e mode).1) l
      = replicate (length l) (∅ : CoreAttributes)) as Hmap.
    { induction l as [|e l IH]; simpl; [done|]. by rewrite Hempty, IH. }
    destruct (attribute_validate_ok _ _ _ _ _ _ Hres Hm)
      as (_ & _ & [(_ & _ & Hshape)|(Hmulti & arr & -> & -> & _)]).
    + apply singularShape_type in Hshape.
      destruct Htype as [Ht|[Ht|Ht]]; rewrite Ht in Hshape;
        by destruct Hshape as [?|[?|[?|[?|?]]]].
    + split; [done|]. exists arr. split; [done|]. f_equal. apply Hmap.
Qed.

(** *** Immutable attributes *)

(** C6, as the code has it.  For an immutable attribute, [validateSingular]
    of any value in replace mode is the error "immutable field"
    ([ImmutableFieldModified]); so is [attribute.validate] of a present value
    when the attribute is not multi-valued, and of a non-empty array when it
    is.  In write mode a value that passes the type switch validates: as the
    value of an attribute that is not multi-valued, and as every element of
    the array of one that is. *)
Theorem immutable_attribute a :
  Mutability a = attributeMutabilityImmutable ->
  (forall i, validateSingular a i replace = (∅, Some (ErrImmutable (Name a))))
  /\ kind (ErrImmutable (Name a)) = ImmutableFieldModified
  /\ (MultiValued a = false -> forall i, i <> VNull ->
      attribute_validate a i replace = (∅, Some (ErrImmutable (Name a))))
  /\ (MultiValued a = true -> forall sub arr,
      attribute_validate a (VArray (sub :: arr)) replace
      = (∅, Some (ErrImmutable (Name a))))
  /\ (forall i,
      checkType (attributes_validate (SubAttributes a)) a i write = None ->
      (validateSingular a i write).2 = None)
  /\ (MultiValued a = false -> forall i,
      checkType (attributes_validate (SubAttributes a)) a i write = None ->
      (attribute_validate a i write).2 = None)
  /\ (MultiValued a = true -> forall sub arr,
      Forall (fun x => checkType (attributes_validate (SubAttributes a)) a x
                         write = None) (sub :: arr) ->
      (attribute_validate a (VArray (sub :: arr)) write).2 = None).
Proof.
  intros Hmut.
  assert (forall x, validateSingular a x replace
                    = (∅, Some (ErrImmutable (Name a)))) as Hreplace.
  { intros x. apply validateSingular_gate. simpl. by rewrite Hmut. }
  assert (forall x,
    checkType (attributes_validate (SubAttributes a)) a x write = None ->
    (validateSingular a x write).2 = None) as Hwrite.
  { intros x Hcheck. rewrite validateSingular_typed, Hcheck by done.
    by case_match. }
  split; [done|]. split; [done|]. split; [|split; [|split; [done|split]]].
  - intros Hmulti i Hi. by rewrite attribute_validate_singular.
  - intros Hmulti sub arr.
    apply (attribute_validate_element_error a [] sub arr); [done..|].
    by rewrite Hreplace.
  - intros Hmulti i Hcheck. rewrite attribute_validate_singular; [auto..|].
    intros ->. unfold checkType in Hcheck. by repeat case_match.
  - intros Hmulti sub arr Hall. rewrite attribute_validate_array by done.
    rewrite (validateElements_ok (validateSingular a) (sub :: arr) write []);
      [done|].
    eapply Forall_impl; [exact Hall|]. auto.
Qed.

End Properties.

(** ** The properties at sample documents *)

Lemma absent_attribute_witness :
  attributes_validate asciiEqualFold asciiToLower [nickName; userName]
    (VObject {[ "id" := VString "0001" ]}) write
  = (∅, Some (ErrRequiredValue "username")).
Proof.
  destruct (absent_attribute asciiEqualFold asciiToLower
    [nickName] userName [] {[ "id" := VString "0001" ]} write)
    as (_ & Hrequired & _).
  - intros k [v [<- _]%lookup_singleton_Some]. reflexivity.
  - destruct (Hrequired eq_refl) as (_ & _ & H). apply H.
    vm_compute. reflexivity.
Defined.

Lemma duplicate_key_witness :
  exists k,
    attributes_validate asciiEqualFold asciiToLower [nickName; userName]
      (VObject {[ "userName" := VString "alice"; "USERNAME" := VNumber "1" ]})
      write
    = (∅, Some (ErrDuplicateKey (asciiToLower k))).
Proof.
  destruct (duplicate_key asciiEqualFold asciiToLower [nickName] userName []
    {[ "userName" := VString "alice"; "USERNAME" := VNumber "1" ]} write
    "userName" "USERNAME") as (k & _ & _ & _ & _ & _ & H).
  - vm_compute. eauto.
  - vm_compute. eauto.
  - discriminate.
  - reflexivity.
  - reflexivity.
  - exists k. apply H. vm_compute. reflexivity.
Defined.


Lemma unsupported_type_witness :
  validateSingular asciiEqualFold asciiToLower salary (VNumber "1.5") write
  = (∅, Some (ErrInvalidType "decimal")).
Proof.
  destruct (unsupported_type asciiEqualFold asciiToLower salary
              (VNumber "1.5") write) as (_ & _ & H & _).
  - left. reflexivity.
  - apply H. left. discriminate.
Defined.

(** C6 as it is stated fails for a multi-valued attribute: the length of
    the array and its being an array are checked before the mutability. *)
Lemma immutable_attribute_counterexample :
  Mutability badges = attributeMutabilityImmutable
  /\ attribute_validate asciiEqualFold asciiToLower badges (VArray []) replace
     = ({[ "badges" := CList [] ]}, None)
  /\ attribute_validate asciiEqualFold asciiToLower badges (VString "gold")
       replace
     = (∅, Some (ErrNotSlice (VString "gold"))).
Proof. split; [reflexivity|]. split; vm_compute; reflexivity. Qed.

Lemma immutable_attribute_witness :
  attribute_validate asciiEqualFold asciiToLower externalId (VString "x1")
    replace
  = (∅, Some (ErrImmutable "externalId"))
  /\ (attribute_validate asciiEqualFold asciiToLower externalId (VString "x1")
        write).2 = None.
Proof.
  destruct (immutable_attribute asciiEqualFold asciiToLower externalId eq_refl)
    as (_ & _ & Hreplace & _ & _ & Hwrite & _).
  split.
  - apply Hreplace; [reflexivity|discriminate].
  - apply Hwrite; reflexivity.
Defined.

(** C1 at a multi-valued attribute: the attribute is [Returned] never, and
    in write mode its key is in the mapping, with one empty
    [CoreAttributes] for each element of the array. *)
Theorem returned_never_multivalued :
  Returned secrets = attributeReturnedNever
  /\ attributes_validate asciiEqualFold asciiToLower [secrets]
       (VObject {[ "secrets" := VArray [VString "s3cr3t"] ]}) write
     = ({[ "secrets" := CList [∅] ]}, None).
Proof. split; [reflexivity|]. vm_compute. reflexivity. Qed.

(** C4 at the literals of the specification, and at a literal with an
    upper-case exponent marker, which the type switch lets through. *)
Theorem integer_literals :
  attribute_validate asciiEqualFold asciiToLower age (VNumber "1") write
  = ({[ "age" := CRaw (VNumber "1") ]}, None)
  /\ attribute_validate asciiEqualFold asciiToLower age (VNumber "-42") write
     = ({[ "age" := CRaw (VNumber "-42") ]}, None)
  /\ attribute_validate asciiEqualFold asciiToLower age (VNumber "1.5") write
     = (∅, Some (ErrNotInteger "1.5"))
  /\ attribute_validate asciiEqualFold asciiToLower age (VNumber "1e2") write
     = (∅, Some (ErrNotInteger "1e2"))
  /\ kind (ErrNotInteger "1e2") = TypeMismatch
  /\ attribute_validate asciiEqualFold asciiToLower age (VNumber "1E2") write
     = ({[ "age" := CRaw (VNumber "1E2") ]}, None).
Proof. repeat split; vm_compute; reflexivity. Qed.

(** C5 at an optional and at a required multi-valued attribute: the empty
    array of the required one is the error "required array is empty"; the
    empty array of the optional one validates, and in write mode its key is
    in the mapping, with the empty list. *)
Theorem empty_array :
  attribute_validate asciiEqualFold asciiToLower groups (VArray []) write
  = (∅, Some ErrEmptyArray)
  /\ kind ErrEmptyArray = EmptyRequiredArray
  /\ Required emails = false
  /\ attribute_validate asciiEqualFold asciiToLower emails (VArray []) write
     = ({[ "emails" := CList [] ]}, None)
  /\ attributes_validate asciiEqualFold asciiToLower [emails]
       (VObject {[ "emails" := VArray [] ]}) write
     = ({[ "emails" := CList [] ]}, None).
Proof. repeat split; vm_compute; reflexivity. Qed.

(** C2 as it is stated fails at a multi-valued attribute, whose elements
    come back wrapped under its name, and at a required attribute that is
    not returned. *)
Lemma revalidation_counterexample :
  (attributes_validate asciiEqualFold asciiToLower [emails]
     (VObject {[ "emails" := VArray [VString "al@example.com"] ]}) write
   = ({[ "emails" := CList [ {[ "emails" := CRaw (VString "al@example.com") ]} ] ]},
      None)
   /\ attributes_validate asciiEqualFold asciiToLower [emails]
        (reserialize
           {[ "emails" := CList [ {[ "emails" := CRaw (VString "al@example.com") ]} ] ]})
        write
      = (∅, Some (ErrConvertType
                    (VObject {[ "emails" := VString "al@example.com" ]})
                    attributeTypeString)))
  /\ (attributes_validate asciiEqualFold asciiToLower [password]
        (VObject {[ "password" := VString "t0ps3cret" ]}) write
      = (∅, None)
      /\ attributes_validate asciiEqualFold asciiToLower [password]
           (reserialize ∅) write
         = (∅, Some (ErrRequiredValue "password"))).
Proof. repeat split; vm_compute; reflexivity. Qed.

Example revalidation_folded_names :
  attributes_validate asciiEqualFold asciiToLower [title; TITLE]
    (VObject {[ "title" := VString "Dr" ]}) write
  = ({[ "title" := CRaw (VString "Dr"); "TITLE" := CRaw (VString "Dr") ]}, None)
  /\ (attributes_validate asciiEqualFold asciiToLower [title; TITLE]
        (reserialize
           {[ "title" := CRaw (VString "Dr"); "TITLE" := CRaw (VString "Dr") ]})
        write).2
     = Some (ErrDuplicateKey "title").
Proof. split; vm_compute; reflexivity. Qed.

Lemma asciiEqualFold_refl s : asciiEqualFold s s = true.
Proof. apply String.eqb_refl. Qed.

Lemma revalidation_witness :
  attributes_validate asciiEqualFold asciiToLower (Attributes userSchema)
    (reserialize {[ "userName" := CRaw (VString "alice") ]}) write
  = ({[ "userName" := CRaw (VString "alice") ]}, None).
Proof.
  destruct (revalidation asciiEqualFold asciiToLower decodeEmptyObject
              userSchema) as [H _].
  - exact asciiEqualFold_refl.
  - simpl. repeat split; repeat constructor.
  - repeat constructor.
  - repeat constructor; discriminate.
  - apply (H (VObject {[ "USERNAME" := VString "alice";
                         "pin" := VString "1234";
                         "shoeSize" := VNumber "43" ]})).
    vm_compute. reflexivity.
Defined.



(** ** Further properties of the validation *)

Section MoreProperties.

Context (EqualFold : string -> string -> bool) (ToLower : string -> string).
Context (Decode : string -> option value).

Local Abbreviation scanKeys := (scanKeys EqualFold ToLower).
Local Abbreviation findHit := (findHit EqualFold ToLower).
Local Abbreviation attributesLoop := (attributesLoop EqualFold ToLower).
Local Abbreviation validateSingular := (validateSingular EqualFold ToLower).
Local Abbreviation attribute_validate := (attribute_validate EqualFold ToLower).
Local Abbreviation attributes_validate := (attributes_validate EqualFold ToLower).
Local Abbreviation validateWith := (validateWith ToLower).
Local Abbreviation schema_validate := (schema_validate EqualFold ToLower Decode).

(** *** What the scan of the keys finds *)

Lemma findHit_cases name (c : gmap string value) :
  (forall k, is_Some (c !! k) -> EqualFold name k = false)
  \/ (exists k v, c !! k = Some v /\ EqualFold name k = true
        /\ forall k', is_Some (c !! k') -> EqualFold name k' = true -> k' = k)
  \/ (exists k k', k <> k' /\ is_Some (c !! k) /\ is_Some (c !! k')
        /\ EqualFold name k = true /\ EqualFold name k' = true).
Proof.
  destruct (decide (Exists (fun kv => EqualFold name kv.1 = true)
                      (map_to_list c))) as [Hsome|Hnone].
  - right. apply Exists_exists in Hsome as ([k v] & Hin%elem_of_map_to_list & Hk).
    simpl in Hk.
    destruct (decide (Exists (fun kv => EqualFold name kv.1 = true /\ kv.1 <> k)
                        (map_to_list c))) as [Hother|Hunique].
    + right.
      apply Exists_exists in Hother
        as ([k' v'] & Hin'%elem_of_map_to_list & Hk' & Hne).
      simpl in *. exists k, k'. by eauto 10.
    + left. exists k, v. split; [done|]. split; [done|].
      intros k' [v' Hin'] Hk'. destruct (decide (k' = k)) as [|Hne]; [done|].
      exfalso. apply Hunique, Exists_exists. exists (k', v').
      split; [by apply elem_of_map_to_list|done].
  - left. intros k [v Hin]. destruct (EqualFold name k) eqn:Hk; [|done].
    exfalso. apply Hnone, Exists_exists. exists (k, v).
    split; [by apply elem_of_map_to_list|done].
Qed.

Lemma findHit_found name (c : gmap string value) hit :
  findHit name c = inr hit -> hit <> VNull ->
  exists k, c !! k = Some hit /\ EqualFold name k = true.
Proof.
  intros Hhit Hpresent.
  destruct (findHit_cases name c)
    as [Hnone|[(k & v & Hk & Hfold & Hunique)|(k & k' & Hne & Hk & Hk' & Hf & Hf')]].
  - rewrite (findHit_absent _ _ _ _ Hnone) in Hhit. congruence.
  - rewrite (findHit_unique _ _ _ _ k v) in Hhit; [|done..|].
    + exists k. by simplify_eq.
    + intros k' ? Hne. destruct (EqualFold name k') eqn:Hf; [|done].
      by destruct Hne; apply Hunique.
  - destruct (findHit_duplicate _ ToLower _ _ _ _ Hk Hk' Hne Hf Hf')
      as (? & _ & _ & Hdup).
    congruence.
Qed.


(** *** Keys that no attribute looks at *)

Lemma findHit_agree name (c c' : gmap string value) :
  (forall k, EqualFold name k = true -> c !! k = c' !! k) ->
  match findHit name c, findHit name c' with
  | inr hit, inr hit' => hit = hit'
  | inl err, inl err' => kind err = kind err'
  | _, _ => False
  end.
Proof.
  intros Hsame.
  destruct (findHit_cases name c)
    as [Hnone|[(k & v & Hk & Hfold & Hunique)|(k & k' & Hne & Hk & Hk' & Hf & Hf')]].
  - rewrite (findHit_absent _ _ _ _ Hnone), (findHit_absent _ _ _ c'); [done|].
    intros k Hk. destruct (EqualFold name k) eqn:Hf; [|done].
    rewrite <- (Hsame k Hf) in Hk. by rewrite (Hnone k Hk) in Hf.
  - rewrite (findHit_unique _ _ _ c k v), (findHit_unique _ _ _ c' k v);
      [done|by rewrite <- Hsame|done|..|done|done|].
    + intros k' Hk' Hne. destruct (EqualFold name k') eqn:Hf; [|done].
      rewrite <- (Hsame k' Hf) in Hk'. by destruct Hne; apply Hunique.
    + intros k' Hk' Hne. destruct (EqualFold name k') eqn:Hf; [|done].
      by destruct Hne; apply Hunique.
  - destruct (findHit_duplicate _ ToLower _ c _ _ Hk Hk' Hne Hf Hf')
      as (? & _ & _ & ->).
    rewrite (Hsame k Hf) in Hk. rewrite (Hsame k' Hf') in Hk'.
    destruct (findHit_duplicate _ ToLower _ c' _ _ Hk Hk' Hne Hf Hf')
      as (? & _ & _ & ->).
    done.
Qed.

Lemma attributesLoop_agree validate (c c' : gmap string value) mode as_ acc :
  (forall a, a ∈ as_ ->
     match findHit (Name a) c, findHit (Name a) c' with
     | inr hit, inr hit' => hit = hit'
     | inl err, inl err' => kind err = kind err'
     | _, _ => False
     end) ->
  (attributesLoop validate c mode as_ acc).1
  = (attributesLoop validate c' mode as_ acc).1
  /\ kind <$> (attributesLoop validate c mode as_ acc).2
     = kind <$> (attributesLoop validate c' mode as_ acc).2.
Proof.
  revert acc. induction as_ as [|a rest IH]; intros acc Hall; simpl; [done|].
  pose proof (Hall a ltac:(left)) as Ha.
  destruct (findHit (Name a) c) as [err|hit], (findHit (Name a) c') as [err'|hit'];
    try done.
  { simpl. by rewrite Ha. }
  subst hit'. destruct (validate a hit mode) as [m [err|]]; [done|].
  apply IH. intros b Hb. apply Hall. by right.
Qed.


(** X3. A key with the value [null] is a key that is not there: when the
    attributes that match the key match no other key of the object, the
    object validates with the key set to [null] as it does without it. *)
Theorem null_is_absent as_ (c : gmap string value) k mode :
  c !! k = None ->
  (forall a, a ∈ as_ -> EqualFold (Name a) k = true ->
     forall k', is_Some (c !! k') -> EqualFold (Name a) k' = false) ->
  (attributes_validate as_ (VObject (<[k:=VNull]> c)) mode).1
  = (attributes_validate as_ (VObject c) mode).1
  /\ kind <$> (attributes_validate as_ (VObject (<[k:=VNull]> c)) mode).2
     = kind <$> (attributes_validate as_ (VObject c) mode).2.
Proof.
  intros Hfresh Honly. apply attributesLoop_agree. intros a Ha.
  destruct (EqualFold (Name a) k) eqn:Hk.
  - rewrite (findHit_absent _ _ _ c (Honly a Ha Hk)).
    rewrite (findHit_unique _ _ _ _ k VNull); [done|by rewrite lookup_insert_eq|done|].
    intros k' Hk' Hne. apply (Honly a Ha Hk). by rewrite lookup_insert_ne in Hk'.
  - apply findHit_agree. intros k' Hk'. apply lookup_insert_ne. congruence.
Qed.

(** *** The modes against one another *)

Lemma attribute_tree_ind (P : attribute -> Prop) :
  (forall a, Forall P (SubAttributes a) -> P a) -> forall a, P a.
Proof.
  intros Hstep. fix IH 1. intros a. apply Hstep.
  destruct a as [? ? subs ? ? ? ? ? ? ? ? ?]. simpl.
  induction subs as [|b subs IHsubs]; constructor; [apply IH|apply IHsubs].
Qed.

Lemma checkType_complex_errors complex a i m1 m2 :
  (complex i m1).2 = (complex i m2).2 ->
  checkType complex a i m1 = checkType complex a i m2.
Proof. intros Hcomplex. unfold checkType. by rewrite Hcomplex. Qed.

Lemma validateElements_errors singular arr m1 m2 acc acc' :
  (forall x, (singular x m1).2 = (singular x m2).2) ->
  match validateElements singular arr m1 acc,
        validateElements singular arr m2 acc' with
  | inl _, inl _ => True
  | inr err, inr err' => err = err'
  | _, _ => False
  end.
Proof.
  intros Hsingular. revert acc acc'.
  induction arr as [|x arr IH]; intros acc acc'; simpl; [done|].
  pose proof (Hsingular x) as Hx.
  destruct (singular x m1) as [e1 [err1|]], (singular x m2) as [e2 [err2|]];
    simpl in Hx; simplify_eq; [done|]. apply IH.
Qed.

Lemma validateWith_errors singular a i m1 m2 :
  (forall x, (singular x m1).2 = (singular x m2).2) ->
  (validateWith singular a i m1).2 = (validateWith singular a i m2).2.
Proof.
  intros Hsingular. unfold validateWith.
  destruct i as [| | | |arr|]; try (by destruct (MultiValued a), (Required a)).
  destruct (MultiValued a); [|done].
  destruct (Nat.eqb (length arr) 0 && Required a); [done|].
  pose proof (validateElements_errors singular arr m1 m2 [] [] Hsingular) as H.
  destruct (validateElements singular arr m1 []),
    (validateElements singular arr m2 []); try done; simpl in *.
  - by destruct m1, m2.
  - by subst.
Qed.

Lemma attributesLoop_errors validate (c : gmap string value) m1 m2 as_ acc acc' :
  (forall a, a ∈ as_ -> forall hit,
     (validate a hit m1).2 = (validate a hit m2).2) ->
  (attributesLoop validate c m1 as_ acc).2
  = (attributesLoop validate c m2 as_ acc').2.
Proof.
  revert acc acc'.
  induction as_ as [|a rest IH]; intros acc acc' Hall; simpl; [done|].
  destruct (findHit (Name a) c) as [err|hit]; [done|].
  pose proof (Hall a ltac:(left) hit) as Ha.
  destruct (validate a hit m1) as [e1 [err1|]],
    (validate a hit m2) as [e2 [err2|]]; simpl in Ha; simplify_eq; [done|].
  apply IH. intros b Hb. apply Hall. by right.
Qed.

Lemma validateSingular_read_write a i :
  (validateSingular a i read).2 = (validateSingular a i write).2.
Proof.
  revert i. induction a as [a IH] using attribute_tree_ind. intros i.
  rewrite !validateSingular_typed by done.
  rewrite (checkType_complex_errors _ a i read write).
  - destruct (checkType _ a i write); [done|]. simpl. by case_match.
  - destruct i; try done. rewrite !attributes_validate_object.
    apply attributesLoop_errors. intros b Hb hit.
    rewrite Forall_forall in IH.
    apply (validateWith_errors (validateSingular b)), (IH b Hb).
Qed.

Lemma attribute_validate_read_write a i :
  (attribute_validate a i read).2 = (attribute_validate a i write).2.
Proof.
  apply (validateWith_errors (validateSingular a)).
  intros x. apply validateSingular_read_write.
Qed.

Lemma attributes_validate_read_write as_ i :
  (attributes_validate as_ i read).2 = (attributes_validate as_ i write).2.
Proof.
  destruct i; try done. rewrite !attributes_validate_object.
  apply attributesLoop_errors. intros b _ hit.
  apply attribute_validate_read_write.
Qed.

Lemma schema_validate_read_write s raw :
  (schema_validate s raw read).2 = (schema_validate s raw write).2.
Proof.
  rewrite !schema_validate_unfold. destruct (Decode raw); [|done].
  apply attributes_validate_read_write.
Qed.

(** X4. Read mode and write mode accept the same values and report the
    same error: the modes differ in what they return, not in what they
    check.  (Read mode returns no attribute at all.) *)
Theorem read_write_errors :
  (forall a i, (validateSingular a i read).2 = (validateSingular a i write).2)
  /\ (forall a i,
        (attribute_validate a i read).2 = (attribute_validate a i write).2)
  /\ (forall as_ i,
        (attributes_validate as_ i read).2 = (attributes_validate as_ i write).2
        /\ (attributes_validate as_ i read).1 = ∅)
  /\ (forall s raw,
        (schema_validate s raw read).2 = (schema_validate s raw write).2).
Proof.
  split; [exact validateSingular_read_write|].
  split; [exact attribute_validate_read_write|]. split.
  - intros as_ i. split; [apply attributes_validate_read_write|].
    apply read_mode_empty.
  - exact schema_validate_read_write.
Qed.

Lemma freelyMutable_unfold a :
  freelyMutable a
  = negb (String.eqb (Mutability a) attributeMutabilityImmutable)
    && negb (String.eqb (Mutability a) attributeMutabilityReadOnly)
    && forallb freelyMutable (SubAttributes a).
Proof. by destruct a. Qed.

Lemma validateElements_modes singular arr m1 m2 acc :
  (forall x, singular x m1 = singular x m2) ->
  validateElements singular arr m1 acc = validateElements singular arr m2 acc.
Proof.
  intros Hsingular. revert acc.
  induction arr as [|x arr IH]; intros acc; simpl; [done|].
  rewrite (Hsingular x). destruct (singular x m2) as [e [err|]]; [done|].
  apply IH.
Qed.

Lemma validateWith_replace_write singular a i :
  (forall x, singular x replace = singular x write) ->
  validateWith singular a i replace = validateWith singular a i write.
Proof.
  intros Hsingular. unfold validateWith.
  destruct i as [| | | |arr|]; rewrite ?Hsingular; try done.
  by rewrite (validateElements_modes singular arr replace write [] Hsingular).
Qed.

Lemma attributesLoop_replace_write validate (c : gmap string value) as_ acc :
  (forall a, a ∈ as_ -> forall hit,
     validate a hit replace = validate a hit write) ->
  attributesLoop validate c replace as_ acc
  = attributesLoop validate c write as_ acc.
Proof.
  revert acc. induction as_ as [|a rest IH]; intros acc Hall; simpl; [done|].
  destruct (findHit (Name a) c) as [err|hit]; [done|].
  rewrite (Hall a ltac:(left) hit).
  destruct (validate a hit write) as [m [err|]]; [done|].
  apply IH. intros b Hb. apply Hall. by right.
Qed.

Lemma validateSingular_replace_write a :
  freelyMutable a = true ->
  forall i, validateSingular a i replace = validateSingular a i write.
Proof.
  induction a as [a IH] using attribute_tree_ind.
  rewrite freelyMutable_unfold.
  intros [[Himm Hro]%andb_prop Hsubs]%andb_prop i.
  rewrite forallb_forall in Hsubs. rewrite Forall_forall in IH.
  assert (mutabilityGate a replace = None) as Hgate.
  { simpl. by destruct (String.eqb (Mutability a) _),
      (String.eqb (Mutability a) _). }
  rewrite !validateSingular_typed by done.
  rewrite (checkType_complex_errors _ a i replace write); [done|].
  destruct i; try done. rewrite !attributes_validate_object.
  f_equal. apply attributesLoop_replace_write. intros b Hb hit.
  assert (forall x, validateSingular b x replace = validateSingular b x write)
    as Hb'.
  { apply (IH b Hb), Hsubs. by apply list_elem_of_In. }
  rewrite !attribute_validate_unfold. by apply validateWith_replace_write.
Qed.

(** X5. Replace mode differs from write mode at immutable and read-only
    attributes alone: against attributes none of which, sub-attributes
    included, is immutable or read-only, every value validates in replace
    mode to what it validates to in write mode, mapping and error. *)
Theorem replace_as_write as_ :
  forallb freelyMutable as_ = true ->
  forall i, attributes_validate as_ i replace = attributes_validate as_ i write.
Proof.
  intros Hfree i. rewrite forallb_forall in Hfree.
  destruct i; try done. rewrite !attributes_validate_object.
  apply attributesLoop_replace_write. intros b Hb hit.
  rewrite !attribute_validate_unfold. apply validateWith_replace_write.
  apply validateSingular_replace_write, Hfree. by apply list_elem_of_In.
Qed.

(** *** Read-only attributes *)

(** X6. In replace mode nothing is checked about the value of a read-only
    attribute: [validateSingular] accepts any value, of the declared type or
    not, and returns no attribute.  For an attribute that is not
    multi-valued any present value is accepted and dropped; for a
    multi-valued one an array is accepted whatever its elements (unless it is
    empty and required) and the key is returned with one empty
    [CoreAttributes] for each element. *)
Theorem read_only_unchecked a :
  Mutability a = attributeMutabilityReadOnly ->
  (forall i, validateSingular a i replace = (∅, None))
  /\ (MultiValued a = false -> forall i, i <> VNull ->
      attribute_validate a i replace = (∅, None))
  /\ (MultiValued a = true -> forall arr,
      arr <> [] \/ Required a = false ->
      attribute_validate a (VArray arr) replace
      = ({[ Name a := CList (replicate (length arr) ∅) ]}, None)).
Proof.
  intros Hmut.
  assert (forall i, validateSingular a i replace = (∅, None)) as Hsingular.
  { intros i. apply validateSingular_gate. simpl. by rewrite Hmut. }
  split; [done|]. split.
  - intros Hmulti i Hi. by rewrite attribute_validate_singular.
  - intros Hmulti arr Harr. rewrite attribute_validate_array by done.
    assert (Nat.eqb (length arr) 0 && Required a = false) as ->.
    { destruct Harr as [Harr| ->]; [by destruct arr|apply andb_false_r]. }
    rewrite (validateElements_ok (validateSingular a) arr replace []).
    + simpl. do 3 f_equal. clear Harr.
      induction arr as [|x arr IH]; simpl; [done|]. by rewrite Hsingular, IH.
    + apply Forall_forall. intros x _. by rewrite Hsingular.
Qed.


(** *** What the mapping holds *)

Lemma findHit_lookup name (c : gmap string value) hit k v :
  findHit name c = inr hit -> c !! k = Some v -> EqualFold name k = true ->
  hit = v.
Proof.
  intros Hhit Hk Hfold.
  destruct (findHit_cases name c)
    as [Hnone|[(k0 & v0 & Hk0 & Hf0 & Hunique)|(k1 & k2 & Hne & H1 & H2 & Hf1 & Hf2)]].
  - rewrite Hnone in Hfold; [done|by eexists].
  - rewrite (findHit_unique _ _ _ _ k0 v0) in Hhit; [|done..|].
    + rewrite (Hunique k) in Hk; [congruence|by eexists|done].
    + intros k' ? Hne. destruct (EqualFold name k') eqn:Hf; [|done].
      by destruct Hne; apply Hunique.
  - destruct (findHit_duplicate _ ToLower _ _ _ _ H1 H2 Hne Hf1 Hf2)
      as (? & _ & _ & Hdup).
    congruence.
Qed.

(** X7. Outside read mode nothing that is to be returned is dropped: when
    an object validates, and a key of it that matches a declared attribute
    holds a value other than [null], the name of the attribute is a key of
    the mapping, provided the attribute is multi-valued, or is [Returned]
    always or default and, in replace mode, not read-only. *)
Theorem returnable_is_returned as_ (c : gmap string value) mode
    (M : CoreAttributes) a k v :
  mode <> read ->
  attributes_validate as_ (VObject c) mode = (M, None) ->
  a ∈ as_ -> c !! k = Some v -> EqualFold (Name a) k = true -> v <> VNull ->
  MultiValued a = true
  \/ (returnedAlwaysOrDefault a = true
      /\ (mode = replace -> Mutability a <> attributeMutabilityReadOnly)) ->
  is_Some (M !! Name a).
Proof.
  intros Hmode Hval Ha Hk Hfold Hv Hreturned.
  rewrite attributes_validate_object in Hval.
  destruct (attributesLoop_dom _ _ _ _ _ _ _ _ Hmode Hval) as [_ Hdom].
  destruct (Hdom a Ha) as (hit & m & Hhit & Hres & Hm).
  rewrite (findHit_lookup _ _ _ _ _ Hhit Hk Hfold) in Hres.
  apply Hm. clear Hm Hdom Hval Hhit.
  destruct (MultiValued a) eqn:Hmulti.
  - destruct v as [| | | |arr|]; try done;
      try (rewrite attribute_validate_unfold in Hres;
           unfold validateWith in Hres; by rewrite Hmulti in Hres).
    destruct (multivalued_key _ _ _ _ _ _ Hmulti Hmode Hres) as (l & -> & _).
    by rewrite lookup_singleton_eq.
  - destruct Hreturned as [?|[Hret Hro]]; [done|].
    rewrite attribute_validate_singular in Hres by done.
    assert (mutabilityGate a mode = None) as Hgate.
    { destruct (mutabilityGate a mode) as [r|] eqn:Hgate; [|done].
      rewrite (validateSingular_gate _ _ _ _ _ _ Hgate) in Hres. subst r.
      destruct mode; try done. simpl in Hgate.
      destruct (String.eqb (Mutability a) attributeMutabilityImmutable);
        [done|].
      destruct (String.eqb_spec (Mutability a) attributeMutabilityReadOnly);
        [|done].
      by destruct Hro. }
    rewrite validateSingular_typed in Hres by done.
    destruct (checkType _ a v mode); [done|]. rewrite Hret in Hres.
    destruct mode; simplify_eq; by rewrite lookup_singleton_eq.
Qed.

(** X8. The mapping is a projection of the input object: every value it
    holds under a key comes from a key of the object that [EqualFold]
    matches with it and that holds a value other than [null], and is that
    value itself or, for an array, a list with one [CoreAttributes] for each
    of its elements. *)
Theorem mapping_from_input as_ (c : gmap string value) mode
    (M : CoreAttributes) k x :
  attributes_validate as_ (VObject c) mode = (M, None) -> M !! k = Some x ->
  exists k' v,
    c !! k' = Some v /\ EqualFold k k' = true /\ v <> VNull
    /\ (x = CRaw v
        \/ exists arr l, v = VArray arr /\ x = CList l
                         /\ length l = length arr).
Proof.
  rewrite attributes_validate_object. intros Hval HM.
  destruct (attributesLoop_lookup _ _ _ _ _ _ _ _ _ _ Hval HM)
    as [Hempty|(a & hit & m & Ha & Hhit & Hres & Hm)].
  { by rewrite lookup_empty in Hempty. }
  destruct (attribute_validate_ok _ _ _ _ _ _ _ _ Hres Hm)
    as (<- & _ & [(_ & -> & Hshape)|(_ & arr & -> & -> & _)]).
  - assert (hit <> VNull) as Hpresent by (by intros ->).
    destruct (findHit_found _ _ _ Hhit Hpresent) as (k' & Hk' & Hfold).
    exists k', hit. by auto.
  - destruct (findHit_found _ _ (VArray arr) Hhit) as (k' & Hk' & Hfold);
      [done|].
    exists k', (VArray arr). do 3 (split; [done|]). right.
    eexists arr, _. split; [done|]. split; [done|]. by rewrite length_map.
Qed.

(** *** Collections put together *)

Lemma attributesLoop_from_empty validate (c : gmap string value) mode as_
    (acc : CoreAttributes) :
  attributesLoop validate c mode as_ acc
  = match attributesLoop validate c mode as_ ∅ with
    | (M, None) => (M ∪ acc, None)
    | (_, Some err) => (∅, Some err)
    end.
Proof.
  revert acc. induction as_ as [|a rest IH]; intros acc; simpl.
  - by rewrite (left_id_L ∅ (∪)).
  - destruct (findHit (Name a) c) as [err|hit]; [done|].
    destruct (validate a hit mode) as [m [err|]]; [done|].
    rewrite (IH (match mode with read => acc | _ => mergeInto acc m end)).
    rewrite (IH (match mode with read => ∅ | _ => mergeInto ∅ m end)).
    destruct (attributesLoop validate c mode rest ∅) as [M [err|]]; [done|].
    f_equal. destruct mode; rewrite ?mergeInto_union.
    + by rewrite (right_id_L ∅ (∪)).
    + by rewrite (right_id_L ∅ (∪)), (assoc_L (∪)).
    + by rewrite (right_id_L ∅ (∪)), (assoc_L (∪)).
Qed.

(** X14. Validating against two collections put one after the other is
    validating against each: the result is the first error, of the first
    collection before the second, and when both validate the union of the
    two mappings, where a key of both has the value of the second. *)
Theorem validation_of_concatenation as1 as2 i mode :
  attributes_validate (as1 ++ as2) i mode
  = match attributes_validate as1 i mode, attributes_validate as2 i mode with
    | (_, Some err), _ => (∅, Some err)
    | (_, None), (_, Some err) => (∅, Some err)
    | (M1, None), (M2, None) => (M2 ∪ M1, None)
    end.
Proof.
  destruct i; try done. rewrite !attributes_validate_object.
  rewrite attributesLoop_app.
  destruct (attributesLoop _ c mode as1 ∅) as [M1 [err|]]; [done|].
  by rewrite attributesLoop_from_empty.
Qed.

(** *** Multi-valued attributes *)

(** X9. For a multi-valued attribute a present value that is not an array
    is the error "cannot convert to a slice"; an array validates exactly
    when each of its elements validates as a single value and it is not both
    empty and required; and outside read mode the mapping of a valid array
    has the name of the attribute as its one key, with what
    [validateSingular] returns for each element, in the order of the
    array. *)
Theorem multivalued_validation a mode :
  MultiValued a = true ->
  (forall i, i <> VNull -> (forall arr, i <> VArray arr) ->
     attribute_validate a i mode = (∅, Some (ErrNotSlice i)))
  /\ (forall arr,
        (attribute_validate a (VArray arr) mode).2 = None
        <-> (arr = [] -> Required a = false)
            /\ Forall (fun e => (validateSingular a e mode).2 = None) arr)
  /\ (forall arr (m : CoreAttributes),
        mode <> read -> attribute_validate a (VArray arr) mode = (m, None) ->
        m = {[ Name a :=
                 CList (map (fun e => (validateSingular a e mode).1) arr) ]}).
Proof.
  intros Hmulti. split; [|split].
  - intros i Hnull Harr. rewrite attribute_validate_unfold. unfold validateWith.
    rewrite Hmulti. destruct i; try done. by destruct (Harr arr).
  - intros arr. rewrite attribute_validate_array by done. split.
    + intros Hok.
      destruct (Nat.eqb (length arr) 0 && Required a) eqn:Hempty; [done|].
      destruct (validateElements _ arr mode []) as [l|err] eqn:Hl; [|done].
      apply validateElements_inv in Hl as [Hall _]. split; [|done].
      intros ->. simpl in Hempty. done.
    + intros [Hempty Hall].
      assert (Nat.eqb (length arr) 0 && Required a = false) as ->.
      { destruct arr; [|done]. simpl. by apply Hempty. }
      rewrite (validateElements_ok _ _ _ _ Hall). by destruct mode.
  - intros arr m Hmode. rewrite attribute_validate_array by done.
    destruct (Nat.eqb (length arr) 0 && Required a); [done|].
    destruct (validateElements _ arr mode []) as [l|err] eqn:Hl; [|done].
    apply validateElements_inv in Hl as [_ ->].
    by destruct mode; intros [= <-].
Qed.

(** *** Integer literals *)

Lemma append_cons ch s t : String ch s +:+ t = String ch (s +:+ t).
Proof. reflexivity. Qed.

Lemma prefix_append p s :
  String.prefix p s = true <-> exists post, s = p +:+ post.
Proof.
  revert s. induction p as [|ch p IH]; intros s.
  - split; [by exists s|by destruct s].
  - destruct s as [|ch' s]; simpl.
    + split; [done|]. by intros [post ?].
    + destruct (ascii_dec ch ch') as [->|Hne].
      * rewrite IH. split; intros [post Hpost]; exists post;
          rewrite append_cons in *; congruence.
      * split; [done|]. intros [post Hpost].
        rewrite append_cons in Hpost. congruence.
Qed.

Lemma Contains_unfold s substr :
  Contains s substr
  = if String.prefix substr s then true
    else match s with
         | EmptyString => false
         | String _ s' => Contains s' substr
         end.
Proof. by destruct s. Qed.

Lemma Contains_spec s substr :
  Contains s substr = true <-> exists pre post, s = pre +:+ substr +:+ post.
Proof.
  split.
  - induction s as [|ch s IH]; rewrite Contains_unfold.
    + destruct (String.prefix substr "") eqn:Hp; [|done].
      apply prefix_append in Hp as [post Hpost]. intros _. by exists "", post.
    + destruct (String.prefix substr (String ch s)) eqn:Hp.
      * apply prefix_append in Hp as [post Hpost]. intros _. by exists "", post.
      * intros (pre & post & ->)%IH. by exists (String ch pre), post.
  - intros (pre & post & ->).
    induction pre as [|ch pre IH]; rewrite Contains_unfold.
    + assert (String.prefix substr (substr +:+ post) = true) as Hp
        by (apply prefix_append; by exists post).
      change ("" +:+ substr +:+ post) with (substr +:+ post). by rewrite Hp.
    + rewrite append_cons, IH. by case_match.
Qed.

(** X10. The check of an integer attribute reads the literal as text: a
    number literal passes exactly when neither "." nor "e" occurs in it, and
    is the error "is not an integer value" otherwise. *)
Theorem integer_literal_check a n mode :
  Type_ a = attributeTypeInteger -> mutabilityGate a mode = None ->
  ((validateSingular a (VNumber n) mode).2 = None
   <-> ~ (exists pre post, n = pre +:+ "." +:+ post)
       /\ ~ (exists pre post, n = pre +:+ "e" +:+ post))
  /\ ((validateSingular a (VNumber n) mode).2 = None
      \/ validateSingular a (VNumber n) mode = (∅, Some (ErrNotInteger n))).
Proof.
  intros Htype Hgate. rewrite validateSingular_typed by done.
  rewrite checkType_integer by done.
  rewrite <- !Contains_spec.
  destruct (Contains n ".") eqn:Hdot, (Contains n "e") eqn:He; simpl.
  - split; [|by right]. split; [done|]. by intros [[] _].
  - split; [|by right]. split; [done|]. by intros [[] _].
  - split; [|by right]. split; [done|]. by intros [_ []].
  - split; [|left; by repeat case_match]. split; [|by repeat case_match].
    intros _. by split.
Qed.

(** *** Construction of a schema *)

Section SchemaConstruction.

Variable Unmarshal : string -> schema.
Variable metaSchema : schema.

Local Abbreviation NewSchemaFromBytes :=
  (NewSchemaFromBytes EqualFold ToLower Decode Unmarshal metaSchema).
Local Abbreviation NewSchemaFromString :=
  (NewSchemaFromString EqualFold ToLower Decode Unmarshal metaSchema).

(** X11. [NewSchemaFromBytes] fails exactly when the text fails the
    meta-schema, with the error that a validation of it in write mode
    reports, and then returns the zero [Schema]: so for a text that does not
    decode, and for a document that is not an object whatever the
    meta-schema is.  When the text passes it returns what [json.Unmarshal]
    left in the schema, without an error.  [NewSchemaFromString] is the
    same function. *)
Theorem NewSchemaFromBytes_spec raw :
  (NewSchemaFromBytes raw).2 = (schema_validate metaSchema raw write).2
  /\ ((NewSchemaFromBytes raw).2 = None ->
      (NewSchemaFromBytes raw).1 = {| schemaOf := Unmarshal raw |})
  /\ (forall err, (NewSchemaFromBytes raw).2 = Some err ->
      (NewSchemaFromBytes raw).1 = zeroSchema)
  /\ (Decode raw = None ->
      NewSchemaFromBytes raw = (zeroSchema, Some ErrDecode))
  /\ (forall i, Decode raw = Some i -> (forall c, i <> VObject c) ->
      NewSchemaFromBytes raw = (zeroSchema, Some (ErrNotComplex i)))
  /\ NewSchemaFromString raw = NewSchemaFromBytes raw.
Proof.
  assert (NewSchemaFromBytes raw
          = match schema_validate metaSchema raw read with
            | (_, Some err) => (zeroSchema, Some err)
            | (_, None) => ({| schemaOf := Unmarshal raw |}, None)
            end) as Hunfold by reflexivity.
  split; [|split; [|split; [|split; [|split]]]].
  - rewrite Hunfold, <- schema_validate_read_write.
    by destruct (schema_validate metaSchema raw read) as [m [err|]].
  - rewrite Hunfold.
    by destruct (schema_validate metaSchema raw read) as [m [err|]].
  - rewrite Hunfold. intros err.
    by destruct (schema_validate metaSchema raw read) as [m [err'|]].
  - intros Hdecode. by rewrite Hunfold, schema_validate_unfold, Hdecode.
  - intros i Hdecode Hobject.
    rewrite Hunfold, schema_validate_unfold, Hdecode.
    destruct i; try done. by destruct (Hobject c).
  - reflexivity.
Qed.

End SchemaConstruction.

End MoreProperties.

(** ** Properties of list responses *)

Section ListResponseProperties.

Context {interface : Type} (asSlice : interface -> option (list interface)).

Local Abbreviation withDefaults := (withDefaults interface asSlice).
Local Abbreviation marshalledMap := (marshalledMap interface asSlice).

Lemma withDefaults_fields l :
  TotalResults (withDefaults l) = TotalResults l
  /\ Resources (withDefaults l) = Resources l
  /\ StartIndex (withDefaults l)
     = (if Z.eqb (StartIndex l) 0 then 1 else StartIndex l)%Z
  /\ ItemsPerPage (withDefaults l)
     = (if Z.eqb (ItemsPerPage l) 0 then
          match asSlice (Resources l) with
          | Some resources => Z.of_nat (length resources)
          | None => 1
          end
        else ItemsPerPage l)%Z.
Proof.
  unfold withDefaults.
  destruct (Z.eqb (StartIndex l) 0); simpl;
    destruct (Z.eqb (ItemsPerPage l) 0); simpl; try done;
    by destruct (asSlice (Resources l)).
Qed.



(** X13. Marshalling fills the defaults once: the map of a response in
    which they are filled is the map of the response. *)
Theorem marshalled_defaults_idempotent l :
  withDefaults (withDefaults l) = withDefaults l
  /\ marshalledMap (withDefaults l) = marshalledMap l.
Proof.
  assert (withDefaults (withDefaults l) = withDefaults l) as Hidem.
  { destruct (withDefaults_fields l) as (Ht & Hr & Hs & Hi).
    destruct (withDefaults_fields (withDefaults l)) as (Ht' & Hr' & Hs' & Hi').
    assert (forall a b : listResponse interface,
      TotalResults a = TotalResults b -> ItemsPerPage a = ItemsPerPage b ->
      StartIndex a = StartIndex b -> Resources a = Resources b -> a = b)
      as Hext by (intros [] []; simpl; congruence).
    apply Hext; [done| | |done].
    - rewrite Hi', Hr.
      destruct (Z.eqb_spec (ItemsPerPage (withDefaults l)) 0) as [Hzero|];
        [|done].
      rewrite Hzero. rewrite Hi in Hzero.
      destruct (Z.eqb_spec (ItemsPerPage l) 0); [|done].
      by destruct (asSlice (Resources l)).
    - rewrite Hs'.
      destruct (Z.eqb_spec (StartIndex (withDefaults l)) 0) as [Hzero|];
        [|done].
      rewrite Hs in Hzero. by destruct (Z.eqb_spec (StartIndex l) 0). }
  split; [done|]. unfold marshalledMap. by rewrite Hidem.
Qed.

End ListResponseProperties.

(** ** The further properties at sample documents *)


Lemma null_is_absent_witness :
  (attributes_validate asciiEqualFold asciiToLower [userName; nickName]
     (VObject (<["nickName" := VNull]> aliceDocument)) write).1
  = (attributes_validate asciiEqualFold asciiToLower [userName; nickName]
       (VObject aliceDocument) write).1.
Proof.
  apply (null_is_absent asciiEqualFold asciiToLower [userName; nickName]).
  - reflexivity.
  - intros a [->| ->%list_elem_of_singleton]%elem_of_cons Hk; [done|].
    unfold aliceDocument. by intros k' [v [<- _]%lookup_singleton_Some].
Defined.

Lemma replace_as_write_witness :
  attributes_validate asciiEqualFold asciiToLower [userName; profile]
    (VObject aliceDocument) replace
  = attributes_validate asciiEqualFold asciiToLower [userName; profile]
      (VObject aliceDocument) write.
Proof.
  apply (replace_as_write asciiEqualFold asciiToLower [userName; profile]).
  reflexivity.
Defined.

Lemma read_only_unchecked_witness :
  validateSingular asciiEqualFold asciiToLower resourceId (VNumber "7") replace
  = (∅, None).
Proof.
  apply (read_only_unchecked asciiEqualFold asciiToLower resourceId).
  reflexivity.
Defined.

Lemma returnable_is_returned_witness :
  is_Some (({[ "userName" := CRaw (VString "alice") ]} : CoreAttributes)
             !! "userName").
Proof.
  apply (returnable_is_returned asciiEqualFold asciiToLower [userName]
           aliceDocument write _ userName "USERNAME" (VString "alice")).
  - discriminate.
  - vm_compute. reflexivity.
  - left.
  - reflexivity.
  - reflexivity.
  - discriminate.
  - right. split; [reflexivity|discriminate].
Defined.

Lemma mapping_from_input_witness :
  exists k' v,
    aliceDocument !! k' = Some v /\ asciiEqualFold "userName" k' = true
    /\ v <> VNull
    /\ (CRaw (VString "alice") = CRaw v
        \/ exists arr l, v = VArray arr
                         /\ CRaw (VString "alice") = CList l
                         /\ length l = length arr).
Proof.
  apply (mapping_from_input asciiEqualFold asciiToLower [userName]
           aliceDocument write {[ "userName" := CRaw (VString "alice") ]}).
  - vm_compute. reflexivity.
  - reflexivity.
Defined.

Lemma multivalued_validation_witness :
  attribute_validate asciiEqualFold asciiToLower emails
    (VString "al@example.com") write
  = (∅, Some (ErrNotSlice (VString "al@example.com"))).
Proof.
  destruct (multivalued_validation asciiEqualFold asciiToLower emails write
              eq_refl) as [H _].
  apply H; [discriminate|]. intros arr. discriminate.
Defined.

Lemma integer_literal_check_witness :
  validateSingular asciiEqualFold asciiToLower age (VNumber "1.0") write
  = (∅, Some (ErrNotInteger "1.0")).
Proof.
  destruct (integer_literal_check asciiEqualFold asciiToLower age "1.0" write
              eq_refl eq_refl) as [_ [H|H]].
  - vm_compute in H. discriminate H.
  - exact H.
Defined.
